(** * The WebSocket provider of the agent platform front end

    A shallow embedding of [frontend/src/hooks/useWebSocket.tsx] (the
    [WebSocketProvider] component) as an event-driven state machine, with the
    part of [frontend/src/hooks/useAuth.tsx] that holds the session.

    The provider keeps two pieces of React state ([isConnected], [messages])
    and two refs ([wsRef], [reconnectTimeoutRef]).  Its code runs as
    non-overlapping reactions to calls of the context functions, to events of
    the [WebSocket] objects it constructed and to expiring timeouts.  The
    browser side (the sockets with their [readyState], the pending timeouts,
    the console) is part of the modelled state, so that a whole history can be
    replayed by [run]. *)

From Stdlib Require Import Ascii String.
From stdpp Require Import base option list strings gmap.

Open Scope string_scope.
Open Scope list_scope.

(** ** Browser objects *)

(** [WebSocket.readyState]: the constants [CONNECTING] (0), [OPEN] (1),
    [CLOSING] (2) and [CLOSED] (3). *)
Inductive ReadyState := CONNECTING | OPEN | CLOSING | CLOSED.

#[global] Instance ReadyState_eq_dec : EqDecision ReadyState.
Proof. solve_decision. Defined.

(** One [WebSocket] object made by [connect].  The four handlers are assigned
    in the same synchronous block as the constructor call, so every socket
    carries them; they close over the [agentId] argument of that [connect]
    call, kept here as [closure_agentId].  [sent] collects what [ws.send]
    was given. *)
Record WebSocket := mkWebSocket {
  url : string;
  closure_agentId : option string;
  readyState : ReadyState;
  sent : list string
}.

(** [ws.close()]: a socket that is connecting or open starts its closing
    handshake; otherwise nothing happens.  The close event comes later. *)
Definition ws_close (ws : WebSocket) : WebSocket :=
  match readyState ws with
  | CONNECTING | OPEN =>
      mkWebSocket (url ws) (closure_agentId ws) CLOSING (sent ws)
  | CLOSING | CLOSED => ws
  end.

Definition ws_set_readyState (r : ReadyState) (ws : WebSocket) : WebSocket :=
  mkWebSocket (url ws) (closure_agentId ws) r (sent ws).

(** [ws.send(frame)] on an open socket. *)
Definition ws_send (frame : string) (ws : WebSocket) : WebSocket :=
  mkWebSocket (url ws) (closure_agentId ws) (readyState ws) (sent ws ++ [frame]).

(** What the provider writes to the console. *)
Inductive ConsoleEntry :=
  | log_connected                                   (* console.log('WebSocket connected') *)
  | log_disconnected (code : nat) (reason : string) (* console.log('WebSocket disconnected:', code, reason) *)
  | error_parse                                     (* console.error('Failed to parse WebSocket message:', error) *)
  | error_socket                                    (* console.error('WebSocket error:', error) *)
  | warn_not_connected.                             (* console.warn('WebSocket is not connected') *)

(** ** The session of [useAuth.tsx] *)

Module Auth.

Record User := mkUser {
  id : nat;
  username : string;
  email : option string;
  is_active : bool;
  is_admin : bool;
  created_at : string;
  updated_at : string
}.

(** [access_token] is the entry of [localStorage]; [user] and [isLoading] are
    the React state of [AuthProvider]. *)
Record AuthState := mkAuth {
  access_token : option string;
  user : option User;
  isLoading : bool
}.

(** [const isAuthenticated = !!user] *)
Definition isAuthenticated (a : AuthState) : bool :=
  match user a with Some _ => true | None => false end.

(** [logout]: removes the token and the user. *)
Definition logout (a : AuthState) : AuthState :=
  mkAuth None None (isLoading a).

(** The mount effect of [AuthProvider] up to its first suspension: without a
    stored token (or with an empty one, which is falsy) loading ends at once;
    with one, [checkAuthStatus] is started and the state stays as it is until
    the request settles. *)
Definition mount (a : AuthState) : AuthState :=
  match access_token a with
  | Some token =>
      if decide (token = "") then mkAuth (access_token a) (user a) false else a
  | None => mkAuth (access_token a) (user a) false
  end.

(** A browser that holds no token and no user: the session provider has no
    credential to give. *)
Definition signed_out : AuthState := mkAuth None None false.

End Auth.

(** ** The provider *)

Section Provider.

(** JavaScript values, and the two [JSON] builtins the hook calls.
    [JSON_parse] is [None] where [JSON.parse] throws a [SyntaxError];
    [JSON_stringify] is [None] where [JSON.stringify] throws a [TypeError]
    (the message's [data] has type [any]). *)
Context {JSValue : Type}.
Variable JSON_parse : string -> option JSValue.

(** [interface WebSocketMessage]: what a caller of [sendMessage] passes.  On
    the inbound side the annotation is erased: the buffer holds whatever
    [JSON.parse] returned. *)
Record WebSocketMessage := mkWebSocketMessage {
  type : string;
  data : JSValue;
  timestamp : string
}.

Variable JSON_stringify : WebSocketMessage -> option string.

(** [process.env.REACT_APP_WS_URL] *)
Variable REACT_APP_WS_URL : option string.

(** The check of the [WebSocket] constructor on its URL: [false] where
    [new WebSocket(url)] throws a [SyntaxError] (a URL that does not parse,
    a scheme it does not take, a fragment). *)
Variable WebSocket_accepts : string -> bool.

Record State := mkState {
  (* React state *)
  isConnected : bool;
  messages : list JSValue;
  (* refs *)
  wsRef : option nat;
  reconnectTimeoutRef : option nat;
  (* browser *)
  sockets : list WebSocket;
  timers : gmap nat (option string);
  nextTimer : nat;
  console : list ConsoleEntry;
  (* the session provider *)
  auth : Auth.AuthState
}.

Definition set_isConnected (b : bool) (w : State) : State :=
  mkState b (messages w) (wsRef w) (reconnectTimeoutRef w)
          (sockets w) (timers w) (nextTimer w) (console w) (auth w).

Definition set_messages (ms : list JSValue) (w : State) : State :=
  mkState (isConnected w) ms (wsRef w) (reconnectTimeoutRef w)
          (sockets w) (timers w) (nextTimer w) (console w) (auth w).

Definition set_wsRef (r : option nat) (w : State) : State :=
  mkState (isConnected w) (messages w) r (reconnectTimeoutRef w)
          (sockets w) (timers w) (nextTimer w) (console w) (auth w).

Definition set_reconnectTimeoutRef (r : option nat) (w : State) : State :=
  mkState (isConnected w) (messages w) (wsRef w) r
          (sockets w) (timers w) (nextTimer w) (console w) (auth w).

Definition set_sockets (ss : list WebSocket) (w : State) : State :=
  mkState (isConnected w) (messages w) (wsRef w) (reconnectTimeoutRef w)
          ss (timers w) (nextTimer w) (console w) (auth w).

Definition set_auth (a : Auth.AuthState) (w : State) : State :=
  mkState (isConnected w) (messages w) (wsRef w) (reconnectTimeoutRef w)
          (sockets w) (timers w) (nextTimer w) (console w) a.

Definition console_write (e : ConsoleEntry) (w : State) : State :=
  mkState (isConnected w) (messages w) (wsRef w) (reconnectTimeoutRef w)
          (sockets w) (timers w) (nextTimer w) (console w ++ [e]) (auth w).

(** [clearTimeout(t)]: a pending timeout is dropped, an expired one ignored. *)
Definition clearTimeout (t : nat) (w : State) : State :=
  mkState (isConnected w) (messages w) (wsRef w) (reconnectTimeoutRef w)
          (sockets w) (delete t (timers w)) (nextTimer w) (console w) (auth w).

(** A timeout that expires leaves the pending ones; no ref is touched. *)
Definition expire (t : nat) (w : State) : State :=
  mkState (isConnected w) (messages w) (wsRef w) (reconnectTimeoutRef w)
          (sockets w) (delete t (timers w)) (nextTimer w) (console w) (auth w).

(** [setTimeout(() => connect(agentId), 5000)]: the callback is recorded by
    the [agentId] it closes over; the handle returned is a fresh positive
    number, hence truthy. *)
Definition setTimeout (agentId : option string) (w : State) : nat * State :=
  (nextTimer w,
   mkState (isConnected w) (messages w) (wsRef w) (reconnectTimeoutRef w)
           (sockets w) (<[nextTimer w := agentId]> (timers w))
           (S (nextTimer w)) (console w) (auth w)).

(** The state of a freshly mounted provider. *)
Definition init (a : Auth.AuthState) : State :=
  mkState false [] None None [] ∅ 1 [] a.

(** [wsRef.current?.readyState] *)
Definition current_readyState (w : State) : option ReadyState :=
  i ← wsRef w; ws ← sockets w !! i; Some (readyState ws).

(** [process.env.REACT_APP_WS_URL || 'ws://localhost:5000']: an unset or
    empty variable is falsy. *)
Definition base_address : string :=
  match REACT_APP_WS_URL with
  | Some u => if decide (u = "") then "ws://localhost:5000" else u
  | None => "ws://localhost:5000"
  end.

(** The conditional of [connect] picks by the truthiness of [agentId]: an
    absent and an empty identifier both give the global path. *)
Definition wsUrl (agentId : option string) : string :=
  match agentId with
  | Some a =>
      if decide (a = "") then base_address +:+ "/api/ws"
      else base_address +:+ "/api/agents/" +:+ a +:+ "/ws"
  | None => base_address +:+ "/api/ws"
  end.

(** How a call of a context function ends. *)
Inductive Completion := Returned | Threw.

(** [connect(agentId)].  Where the constructor refuses the URL its
    [SyntaxError] leaves [connect]: no handler is assigned and [wsRef] keeps
    what it held.  Otherwise the new object starts in state [CONNECTING]. *)
Definition connect (agentId : option string) (w : State) : Completion * State :=
  if decide (current_readyState w = Some OPEN) then (Returned, w)
  else if WebSocket_accepts (wsUrl agentId) then
    let ws := mkWebSocket (wsUrl agentId) agentId CONNECTING [] in
    (Returned,
     set_wsRef (Some (length (sockets w))) (set_sockets (sockets w ++ [ws]) w))
  else (Threw, w).

(** [ws.onopen] *)
Definition onopen (w : State) : State :=
  let w1 := set_isConnected true (console_write log_connected w) in
  match reconnectTimeoutRef w1 with
  | Some t => set_reconnectTimeoutRef None (clearTimeout t w1)
  | None => w1
  end.

(** [ws.onmessage]: the parsed value is appended as it is (the annotation
    [WebSocketMessage] is not checked at run time); a [SyntaxError] is caught
    and logged. *)
Definition onmessage (data : string) (w : State) : State :=
  match JSON_parse data with
  | Some message => set_messages (messages w ++ [message]) w
  | None => console_write error_parse w
  end.

(** [ws.onclose], for a socket whose handlers close over [agentId]. *)
Definition onclose (agentId : option string) (code : nat) (reason : string)
    (w : State) : State :=
  let w1 := set_isConnected false (console_write (log_disconnected code reason) w) in
  match reconnectTimeoutRef w1 with
  | Some _ => w1
  | None =>
      let '(t, w2) := setTimeout agentId w1 in
      set_reconnectTimeoutRef (Some t) w2
  end.

(** [ws.onerror] *)
Definition onerror (w : State) : State :=
  set_isConnected false (console_write error_socket w).

(** [disconnect()] *)
Definition disconnect (w : State) : State :=
  let w1 :=
    match reconnectTimeoutRef w with
    | Some t => set_reconnectTimeoutRef None (clearTimeout t w)
    | None => w
    end in
  let w2 :=
    match wsRef w1 with
    | Some i => set_wsRef None (set_sockets (alter ws_close i (sockets w1)) w1)
    | None => w1
    end in
  set_isConnected false w2.

(** [sendMessage(message)] *)
Definition sendMessage (message : WebSocketMessage) (w : State)
    : Completion * State :=
  if decide (current_readyState w = Some OPEN) then
    match JSON_stringify message with
    | Some frame =>
        match wsRef w with
        | Some i => (Returned, set_sockets (alter (ws_send frame) i (sockets w)) w)
        | None => (Returned, w)
        end
    | None => (Threw, w)
    end
  else (Returned, console_write warn_not_connected w).

(** ** Events *)

(** What can happen to a provider: a consumer calls one of the three context
    functions, the browser dispatches an event of a socket, a timeout expires,
    or React unmounts the component, which runs the cleanup of its effect,
    a call of [disconnect].  The handlers of the sockets and the callbacks of
    the timeouts outlive the component. *)
Inductive Event :=
  | Call_connect (agentId : option string)
  | Call_disconnect
  | Call_sendMessage (message : WebSocketMessage)
  | Ev_open (s : nat)
  | Ev_message (s : nat) (data : string)
  | Ev_error (s : nat)
  | Ev_close (s : nat) (code : nat) (reason : string)
  | Ev_timeout (t : nat)
  | Unmount.

(** When the browser can dispatch the event: [open] to a connecting socket,
    [message] to an open one, [error] and [close] to one that is not closed
    yet, a timeout while it is pending. *)
Definition enabled (w : State) (e : Event) : bool :=
  match e with
  | Call_connect _ | Call_disconnect | Call_sendMessage _ | Unmount => true
  | Ev_open s =>
      match sockets w !! s with
      | Some ws => bool_decide (readyState ws = CONNECTING)
      | None => false
      end
  | Ev_message s _ =>
      match sockets w !! s with
      | Some ws => bool_decide (readyState ws = OPEN)
      | None => false
      end
  | Ev_error s | Ev_close s _ _ =>
      match sockets w !! s with
      | Some ws => bool_decide (readyState ws ≠ CLOSED)
      | None => false
      end
  | Ev_timeout t =>
      match timers w !! t with Some _ => true | None => false end
  end.

(** One reaction.  An event that cannot be dispatched leaves the state as it
    is.  The browser sets [readyState] before it runs the handler; an expired
    timeout leaves the pending set and its callback calls [connect].  A call
    that throws leaves the state it had reached. *)
Definition step (w : State) (e : Event) : State :=
  if enabled w e then
    match e with
    | Call_connect agentId => (connect agentId w).2
    | Call_disconnect => disconnect w
    | Call_sendMessage message => (sendMessage message w).2
    | Ev_open s =>
        onopen (set_sockets (alter (ws_set_readyState OPEN) s (sockets w)) w)
    | Ev_message _ data => onmessage data w
    | Ev_error _ => onerror w
    | Ev_close s code reason =>
        match sockets w !! s with
        | Some ws =>
            onclose (closure_agentId ws) code reason
              (set_sockets (alter (ws_set_readyState CLOSED) s (sockets w)) w)
        | None => w
        end
    | Ev_timeout t =>
        match timers w !! t with
        | Some agentId => (connect agentId (expire t w)).2
        | None => w
        end
    | Unmount => disconnect w
    end
  else w.

(** A history of events, oldest first. *)
Definition run (w : State) (evs : list Event) : State := foldl step w evs.

End Provider.

Arguments WebSocketMessage : clear implicits.
Arguments State : clear implicits.
Arguments Event : clear implicits.

(** ** A reference instance of the JSON builtins

    The provider above is generic in [JSON.parse] and [JSON.stringify].  To
    replay concrete histories, JSON texts are read by a recursive-descent
    reader of the JSON grammar (ECMA-404).  Numbers keep their lexeme and
    strings keep the text between their quotes as written: escape sequences
    are checked, not decoded. *)

Module JSON.

#[warnings="-register-all"]
Inductive JSON :=
  | JNull
  | JBool (b : bool)
  | JNumber (lexeme : string)
  | JString (text : string)
  | JArray (items : list JSON)
  | JObject (members : list (string * JSON)).

Definition dquote : ascii := ascii_of_nat 34.
Definition backslash : ascii := ascii_of_nat 92.

(** [quoted s] is [s] between double quotes. *)
Definition quoted (s : string) : string :=
  String dquote (s +:+ String dquote "").

Definition is_ws (c : ascii) : bool :=
  let n := nat_of_ascii c in
  ((n =? 32) || (n =? 9) || (n =? 10) || (n =? 13))%nat.

Definition is_digit (c : ascii) : bool :=
  let n := nat_of_ascii c in ((48 <=? n) && (n <=? 57))%nat.

Definition is_hex (c : ascii) : bool :=
  let n := nat_of_ascii c in
  (((48 <=? n) && (n <=? 57)) || ((65 <=? n) && (n <=? 70))
   || ((97 <=? n) && (n <=? 102)))%nat.

Fixpoint skip_ws (s : string) : string :=
  match s with
  | String c r => if is_ws c then skip_ws r else s
  | EmptyString => s
  end.

Fixpoint take_digits (s : string) : string * string :=
  match s with
  | String c r =>
      if is_digit c then let '(ds, r') := take_digits r in (String c ds, r')
      else ("", s)
  | EmptyString => ("", s)
  end.

(** A number: an optional minus sign; then a single zero, or digits that do
    not start with a zero; then an optional fraction (a dot and digits); then
    an optional exponent (e or E, an optional sign, digits). *)
Definition parse_number (s : string) : option (string * string) :=
  let '(sign, s1) :=
    match s with String "-"%char r => ("-", r) | _ => ("", s) end in
  '(int, s2) ←
    match s1 with
    | String "0"%char r => Some ("0", r)
    | _ => let '(ds, r) := take_digits s1 in
           if decide (ds = "") then None else Some (ds, r)
    end;
  '(frac, s3) ←
    match s2 with
    | String "."%char r =>
        let '(ds, r') := take_digits r in
        if decide (ds = "") then None else Some ("." +:+ ds, r')
    | _ => Some ("", s2)
    end;
  '(exp, s4) ←
    match s3 with
    | String c r =>
        if decide (c = "e"%char ∨ c = "E"%char) then
          let '(sg, r1) :=
            match r with
            | String "+"%char r' => ("+", r')
            | String "-"%char r' => ("-", r')
            | _ => ("", r)
            end in
          let '(ds, r2) := take_digits r1 in
          if decide (ds = "") then None
          else Some (String c (sg +:+ ds), r2)
        else Some ("", s3)
    | EmptyString => Some ("", s3)
    end;
  Some (sign +:+ int +:+ frac +:+ exp, s4).

(** The characters of a string after its opening quote, up to the closing
    one.  Control characters are refused, as are escapes other than the
    nine of the grammar. *)
Fixpoint parse_chars (s : string) : option (string * string) :=
  match s with
  | EmptyString => None
  | String c r =>
      if decide (c = dquote) then Some ("", r)
      else if decide (c = backslash) then
        match r with
        | String "u"%char (String h1 (String h2 (String h3 (String h4 r')))) =>
            if is_hex h1 && is_hex h2 && is_hex h3 && is_hex h4 then
              '(t, r'') ← parse_chars r';
              Some (String c (String "u" (String h1 (String h2 (String h3 (String h4 t))))), r'')
            else None
        | String e r' =>
            if decide (e = dquote ∨ e = backslash ∨ e = "/"%char ∨ e = "b"%char
                       ∨ e = "f"%char ∨ e = "n"%char ∨ e = "r"%char ∨ e = "t"%char)
            then '(t, r'') ← parse_chars r'; Some (String c (String e t), r'')
            else None
        | EmptyString => None
        end
      else if (nat_of_ascii c <? 32)%nat then None
      else '(t, r') ← parse_chars r; Some (String c t, r')
  end.

Fixpoint parse_value (fuel : nat) (s : string) : option (JSON * string) :=
  match fuel with
  | 0 => None
  | S fuel' =>
      match skip_ws s with
      | String "n"%char (String "u"%char (String "l"%char (String "l"%char r))) =>
          Some (JNull, r)
      | String "t"%char (String "r"%char (String "u"%char (String "e"%char r))) =>
          Some (JBool true, r)
      | String "f"%char (String "a"%char (String "l"%char (String "s"%char (String "e"%char r)))) =>
          Some (JBool false, r)
      | String "["%char r =>
          match skip_ws r with
          | String "]"%char r' => Some (JArray [], r')
          | _ => '(items, r') ← parse_elements fuel' r; Some (JArray items, r')
          end
      | String "{"%char r =>
          match skip_ws r with
          | String "}"%char r' => Some (JObject [], r')
          | _ => '(ms, r') ← parse_members fuel' r; Some (JObject ms, r')
          end
      | String c r =>
          if decide (c = dquote) then
            '(t, r') ← parse_chars r; Some (JString t, r')
          else '(lex, r') ← parse_number (String c r); Some (JNumber lex, r')
      | EmptyString => None
      end
  end
with parse_elements (fuel : nat) (s : string) : option (list JSON * string) :=
  match fuel with
  | 0 => None
  | S fuel' =>
      '(v, r) ← parse_value fuel' s;
      match skip_ws r with
      | String ","%char r' =>
          '(vs, r'') ← parse_elements fuel' r'; Some (v :: vs, r'')
      | String "]"%char r' => Some ([v], r')
      | _ => None
      end
  end
with parse_members (fuel : nat) (s : string)
    : option (list (string * JSON) * string) :=
  match fuel with
  | 0 => None
  | S fuel' =>
      match skip_ws s with
      | String c r =>
          if decide (c = dquote) then
            '(k, r1) ← parse_chars r;
            match skip_ws r1 with
            | String ":"%char r2 =>
                '(v, r3) ← parse_value fuel' r2;
                match skip_ws r3 with
                | String ","%char r4 =>
                    '(ms, r5) ← parse_members fuel' r4; Some ((k, v) :: ms, r5)
                | String "}"%char r4 => Some ([(k, v)], r4)
                | _ => None
                end
            | _ => None
            end
          else None
      | EmptyString => None
      end
  end.

(** [JSON.parse(text)]: one value, with nothing but white space after it.
    The fuel is twice the length of the text plus two: a value inside an array
    or an object is read two calls below the bracket that opens it. *)
Definition parse (text : string) : option JSON :=
  '(v, r) ← parse_value (2 * String.length text + 2) text;
  if decide (skip_ws r = "") then Some v else None.

(** [JSON.stringify(value)] on the values above, without white space.  A
    string is written between quotes as it is held, that is in the escaped
    form in which [parse] read it. *)
Fixpoint stringify (v : JSON) : string :=
  match v with
  | JNull => "null"
  | JBool true => "true"
  | JBool false => "false"
  | JNumber lexeme => lexeme
  | JString text => quoted text
  | JArray items =>
      "[" +:+
      (fix elements (l : list JSON) : string :=
         match l with
         | [] => ""
         | x :: r =>
             stringify x +:+ match r with [] => "" | _ => "," +:+ elements r end
         end) items +:+ "]"
  | JObject members =>
      "{" +:+
      (fix pairs (l : list (string * JSON)) : string :=
         match l with
         | [] => ""
         | (k, x) :: r =>
             quoted k +:+ ":" +:+ stringify x +:+
             match r with [] => "" | _ => "," +:+ pairs r end
         end) members +:+ "}"
  end.

(** [value[key]]: the member of an object, the last one if the key occurs
    twice; [None] is [undefined]. *)
Definition get (key : string) (v : JSON) : option JSON :=
  match v with
  | JObject members =>
      snd <$> last (filter (λ kv, kv.1 = key) members)
  | _ => None
  end.

(** The object [JSON.stringify] is given by [sendMessage]. *)
Definition of_message (m : WebSocketMessage JSON) : JSON :=
  JObject [("type", JString (type m)); ("data", data m);
           ("timestamp", JString (timestamp m))].

(** A frame of the shape the server sends:
    [{ type: ..., data: ..., timestamp: ... }] with string members. *)
Definition frame (type data timestamp : string) : string :=
  "{" +:+ quoted "type" +:+ ":" +:+ quoted type +:+ ","
      +:+ quoted "data" +:+ ":" +:+ quoted data +:+ ","
      +:+ quoted "timestamp" +:+ ":" +:+ quoted timestamp +:+ "}".

End JSON.

(** ** Notions the statements below are phrased in *)

Section Notions.

Context {JSValue : Type}.
Variable JSON_parse : string -> option JSValue.
Variable JSON_stringify : WebSocketMessage JSValue -> option string.
Variable REACT_APP_WS_URL : option string.
Variable WebSocket_accepts : string -> bool.

(** The states a mounted provider can be in. *)
Inductive reachable : State JSValue -> Prop :=
  | reachable_init a : reachable (init a)
  | reachable_step w e :
      reachable w ->
      reachable (step JSON_parse JSON_stringify REACT_APP_WS_URL
                   WebSocket_accepts w e).

(** The part of the context [value] that is data: what a consumer of
    [useWebSocket] gets to see of the provider. *)
Definition context_value (w : State JSValue) : bool * list JSValue :=
  (isConnected w, messages w).

Definition is_message (e : Event JSValue) : bool :=
  match e with Ev_message _ _ => true | _ => false end.

Definition is_close (e : Event JSValue) : bool :=
  match e with Ev_close _ _ _ => true | _ => false end.

Definition is_send (e : Event JSValue) : bool :=
  match e with Call_sendMessage _ => true | _ => false end.

(** A timeout is pending only while [reconnectTimeoutRef] holds its handle. *)
Definition only_ref_pending (w : State JSValue) : Prop :=
  ∀ t, is_Some (timers w !! t) -> reconnectTimeoutRef w = Some t.

(** The reactions that reset [reconnectTimeoutRef]: [onopen] and
    [disconnect]. *)
Definition clears_timer_ref (e : Event JSValue) : bool :=
  match e with
  | Ev_open _ | Call_disconnect | Unmount => true
  | _ => false
  end.

(** Every socket was opened at the endpoint of the [agentId] its handlers
    close over. *)
Definition endpoints_match (w : State JSValue) : Prop :=
  Forall (λ ws, url ws = wsUrl REACT_APP_WS_URL (closure_agentId ws)) (sockets w).

(** Every socket was constructed, so the constructor accepted its URL. *)
Definition urls_accepted (w : State JSValue) : Prop :=
  Forall (λ ws, WebSocket_accepts (url ws) = true) (sockets w).

(** The two scopes the conditional of [connect] tells apart: an [agentId]
    that is absent or empty (falsy) stands for the global channel, any other
    one for the channel of that agent. *)
Inductive Scope := Global | Agent (agentId : string).

Definition scope_of (agentId : option string) : Scope :=
  match agentId with
  | Some a => if decide (a = "") then Global else Agent a
  | None => Global
  end.

(** The endpoint convention in the words of the specification: a global path
    and a per-entity path parameterized by the identifier, both under one
    base address. *)
Definition endpoint_convention (base : string) (scope : Scope) : string :=
  match scope with
  | Global => base +:+ "/api/ws"
  | Agent a => base +:+ "/api/agents/" +:+ a +:+ "/ws"
  end.

(** The frames of a batch on which [JSON.parse] throws. *)
Definition decode_failures (frames : list string) : nat :=
  length (filter (λ d, JSON_parse d = None) frames).

End Notions.

(** The reference instance: provider code run with the JSON reader above,
    the default base address, and a constructor that takes the URLs of the
    [ws] and [wss] schemes that have no fragment. *)
Module Ref.

Definition stringify (m : WebSocketMessage JSON.JSON) : option string :=
  Some (JSON.stringify (JSON.of_message m)).

Fixpoint has_fragment (url : string) : bool :=
  match url with
  | String c rest => Ascii.eqb c "#" || has_fragment rest
  | EmptyString => false
  end.

Definition accepts (url : string) : bool :=
  (String.prefix "ws://" url || String.prefix "wss://" url)
  && negb (has_fragment url).

Definition step := step JSON.parse stringify None accepts.
Definition run := run JSON.parse stringify None accepts.
Definition connect := @connect JSON.JSON None accepts.
Definition sendMessage := @sendMessage JSON.JSON stringify.

(** A provider mounted in a signed-out browser. *)
Definition mounted : State JSON.JSON := init Auth.signed_out.

(** The global socket requested and open. *)
Definition opened : State JSON.JSON := run mounted [Call_connect None; Ev_open 0].

(** The global socket requested and closed before it opened: one timeout is
    pending. *)
Definition retrying : State JSON.JSON :=
  run mounted [Call_connect None; Ev_close 0 1006 ""].

End Ref.

(** A second instance, in which the [data] of a message can also be a
    bigint, a value [JSON.stringify] refuses with a [TypeError]. *)
Module Big.

Inductive Value :=
  | Plain (v : JSON.JSON)
  | BigInt (n : N).

Definition parse (text : string) : option Value := Plain <$> JSON.parse text.

Definition stringify (m : WebSocketMessage Value) : option string :=
  match data m with
  | Plain v =>
      Some (JSON.stringify
              (JSON.of_message (mkWebSocketMessage (type m) v (timestamp m))))
  | BigInt _ => None
  end.

(** The global socket requested and open. *)
Definition opened : State Value :=
  run parse stringify None Ref.accepts (init Auth.signed_out)
    [Call_connect None; Ev_open 0].

End Big.

(** ** The session provider with the API client

    [AuthProvider] of [useAuth.tsx] together with what it uses of
    [services/api.ts]: [authApi.setToken] and the two interceptors of
    [apiClient].  The functions of [AuthProvider] that call the API are
    [async]; none of them touches any state before its [await], so each is
    one reaction, run when its request settles. *)

Module Session.

(** How a request settles: with [response.data], or with an error whose
    [error.response?.status] is absent when no response arrived. *)
Inductive Outcome (A : Type) :=
  | Fulfilled (data : A)
  | Rejected (status : option nat).
Arguments Fulfilled {A} data.
Arguments Rejected {A} status.

(** A value met where the code expects the token: a string, [undefined] (a
    member that is missing), or any other value, given by what [String(...)]
    and [!!...] make of it. *)
Inductive TokenValue :=
  | Str (token : string)
  | Undefined
  | Other (text : string) (truthy : bool).

Definition null : TokenValue := Other "null" false.

(** [String(v)], as [localStorage.setItem] and a template literal coerce. *)
Definition text_of (v : TokenValue) : string :=
  match v with
  | Str t => t
  | Undefined => "undefined"
  | Other t _ => t
  end.

(** [!!v] *)
Definition truthy_of (v : TokenValue) : bool :=
  match v with
  | Str t => bool_decide (t ≠ "")
  | Undefined => false
  | Other _ b => b
  end.

(** [response.data] of [/api/auth/login] and [/api/auth/refresh], which is
    not checked: [null] or [undefined], on which the destructuring of [login]
    and [refreshToken] throws a [TypeError], or a value with the two members
    they read, [user] being [None] when it is missing or [null]. *)
Inductive TokenResponse :=
  | NotAnObject
  | Members (access_token : TokenValue) (user : option Auth.User).

Inductive ConsoleEntry :=
  | error_auth_check      (* console.error('Auth check failed:', error) *)
  | error_login           (* console.error('Login failed:', error) *)
  | error_registration    (* console.error('Registration failed:', error) *)
  | error_refresh.        (* console.error('Token refresh failed:', error) *)

(** [auth] holds the [access_token] entry of [localStorage] and the React
    state; [authorization] is
    [apiClient.defaults.headers.common['Authorization']]; [href] is what the
    code assigned to [window.location.href], if it did. *)
Record State := mkState {
  auth : Auth.AuthState;
  authorization : option string;
  href : option string;
  console : list ConsoleEntry
}.

(** The page just loaded: [user] is [null], [isLoading] is [true], the client
    made by [axios.create] has no [Authorization] header. *)
Definition loaded (token : option string) : State :=
  mkState (Auth.mkAuth token None true) None None [].

Definition set_auth (a : Auth.AuthState) (s : State) : State :=
  mkState a (authorization s) (href s) (console s).

(** [localStorage.getItem('access_token')] *)
Definition getItem (s : State) : option string := Auth.access_token (auth s).

(** [localStorage.setItem('access_token', token)] *)
Definition setItem (token : string) (s : State) : State :=
  set_auth (Auth.mkAuth (Some token) (Auth.user (auth s)) (Auth.isLoading (auth s))) s.

(** [localStorage.removeItem('access_token')] *)
Definition removeItem (s : State) : State :=
  set_auth (Auth.mkAuth None (Auth.user (auth s)) (Auth.isLoading (auth s))) s.

Definition setUser (u : option Auth.User) (s : State) : State :=
  set_auth (Auth.mkAuth (Auth.access_token (auth s)) u (Auth.isLoading (auth s))) s.

Definition setIsLoading (b : bool) (s : State) : State :=
  set_auth (Auth.mkAuth (Auth.access_token (auth s)) (Auth.user (auth s)) b) s.

Definition console_write (e : ConsoleEntry) (s : State) : State :=
  mkState (auth s) (authorization s) (href s) (console s ++ [e]).

(** [authApi.setToken(token)]: a truthy token sets the default header, a
    falsy one ([null], [undefined], the empty string) deletes it. *)
Definition setToken (token : TokenValue) (s : State) : State :=
  if truthy_of token then
    mkState (auth s) (Some ("Bearer " +:+ text_of token)) (href s) (console s)
  else mkState (auth s) None (href s) (console s).

(** The request interceptor, on the [Authorization] header of the request
    configuration it is given: a truthy stored token replaces it. *)
Definition request_interceptor (s : State) (config : option string)
    : option string :=
  match getItem s with
  | Some t => if decide (t = "") then config else Some ("Bearer " +:+ t)
  | None => config
  end.

(** The [Authorization] header of a request that sets none of its own: axios
    merges the defaults into the configuration before the interceptor runs. *)
Definition request_authorization (s : State) : option string :=
  request_interceptor s (authorization s).

(** The response interceptor: a response passes; an error with status 401
    removes the stored token and sends the browser to [/login]; every error
    is rejected again. *)
Definition response_interceptor {A} (o : Outcome A) (s : State) : State :=
  match o with
  | Rejected status =>
      if decide (status = Some 401) then
        let s1 := removeItem s in
        mkState (auth s1) (authorization s1) (Some "/login") (console s1)
      else s
  | Fulfilled _ => s
  end.

(** [logout] *)
Definition logout (s : State) : State :=
  setUser None (setToken null (removeItem s)).

(** [login], when [authApi.login] has settled with [o].  The [TypeError] of
    the destructuring is caught like an error of the request. *)
Definition login (o : Outcome TokenResponse) (s : State) : Completion * State :=
  let s1 := response_interceptor o s in
  match o with
  | Fulfilled (Members access_token user) =>
      (Returned,
       setUser user (setToken access_token (setItem (text_of access_token) s1)))
  | Fulfilled NotAnObject | Rejected _ => (Threw, console_write error_login s1)
  end.

(** [register], when [authApi.register] has settled with [o]. *)
Definition register (o : Outcome Auth.User) (s : State) : Completion * State :=
  let s1 := response_interceptor o s in
  match o with
  | Fulfilled u => (Returned, setUser (Some u) s1)
  | Rejected _ => (Threw, console_write error_registration s1)
  end.

(** [refreshToken], when [authApi.refreshToken] has settled with [o]. *)
Definition refreshToken (o : Outcome TokenResponse) (s : State)
    : Completion * State :=
  let s1 := response_interceptor o s in
  match o with
  | Fulfilled (Members access_token user) =>
      (Returned,
       setUser user (setToken access_token (setItem (text_of access_token) s1)))
  | Fulfilled NotAnObject | Rejected _ =>
      (Threw, logout (console_write error_refresh s1))
  end.

(** [checkAuthStatus], when [authApi.getCurrentUser] has settled with [o];
    the [finally] block ends loading either way. *)
Definition checkAuthStatus (o : Outcome Auth.User) (s : State) : State :=
  let s1 := response_interceptor o s in
  setIsLoading false
    match o with
    | Fulfilled u => setUser (Some u) s1
    | Rejected _ => setToken null (removeItem (console_write error_auth_check s1))
    end.

(** The mount effect, run to the end: [o] is how the request of
    [checkAuthStatus] settles, if one is made. *)
Definition mount (o : Outcome Auth.User) (s : State) : State :=
  match getItem s with
  | Some token =>
      if decide (token = "") then setIsLoading false s
      else checkAuthStatus o (setToken (Str token) s)
  | None => setIsLoading false s
  end.

(** What happens to the provider after the page loaded. *)
Inductive Event :=
  | Mount (o : Outcome Auth.User)
  | Login (o : Outcome TokenResponse)
  | Register (o : Outcome Auth.User)
  | Logout
  | RefreshToken (o : Outcome TokenResponse).

Definition step (s : State) (e : Event) : State :=
  match e with
  | Mount o => mount o s
  | Login o => (login o s).2
  | Register o => (register o s).2
  | Logout => logout s
  | RefreshToken o => (refreshToken o s).2
  end.

Definition run (s : State) (evs : list Event) : State := foldl step s evs.

Definition status_of (e : Event) : option nat :=
  match e with
  | Mount (Rejected st) | Login (Rejected st) | Register (Rejected st)
  | RefreshToken (Rejected st) => st
  | _ => None
  end.

(** The reactions that store a token: a [login] or a [refreshToken] whose
    request succeeded. *)
Definition grants_token (e : Event) : bool :=
  match e with
  | Login (Fulfilled _) | RefreshToken (Fulfilled _) => true
  | _ => false
  end.

(** The successful responses to [login] and [refreshToken] in which
    [access_token] is a string. *)
Definition token_is_string (e : Event) : bool :=
  match e with
  | Login (Fulfilled (Members (Str _) _))
  | RefreshToken (Fulfilled (Members (Str _) _)) => true
  | Login (Fulfilled _) | RefreshToken (Fulfilled _) => false
  | _ => true
  end.

(** The default header is the bearer form of the stored token, and absent
    when no token (or an empty one) is stored. *)
Definition header_follows_token (s : State) : Prop :=
  authorization s =
    match getItem s with
    | Some t => if decide (t = "") then None else Some ("Bearer " +:+ t)
    | None => None
    end.

End Session.

(** ** The application shell

    [ProtectedRoute], [AppContent] and [App], and [isActive] of [Sidebar], by
    what they render for a session. *)

Module App.

Inductive Element :=
  | Spinner                    (* the loading indicator *)
  | Navigate (to : string)     (* <Navigate to=... replace /> *)
  | PublicRoutes               (* the routes /login and /register *)
  | Pages.                     (* Layout with Sidebar and the routes of the pages *)

(** [ProtectedRoute] *)
Definition ProtectedRoute (a : Auth.AuthState) (children : Element) : Element :=
  if Auth.isLoading a then Spinner
  else if negb (Auth.isAuthenticated a) then Navigate "/login"
  else children.

(** [AppContent] *)
Definition AppContent (a : Auth.AuthState) : Element :=
  if negb (Auth.isAuthenticated a) then PublicRoutes else Pages.

(** What [App] shows inside the router: [AppContent] wrapped in
    [ProtectedRoute]. *)
Definition App (a : Auth.AuthState) : Element :=
  ProtectedRoute a (AppContent a).

End App.

Module Sidebar.

Record Item := mkItem { name : string; href : string }.

Definition navigation : list Item :=
  [ mkItem "Dashboard" "/"; mkItem "Agents" "/agents"; mkItem "Chat" "/chat";
    mkItem "Logs" "/logs"; mkItem "Tools" "/tools";
    mkItem "Settings" "/settings" ].

(** [isActive(href)] at [location.pathname]. *)
Definition isActive (pathname href : string) : bool :=
  if decide (href = "/") then bool_decide (pathname = "/")
  else String.prefix href pathname.

End Sidebar.

(** ** Properties of the provider *)

Section Facts.

Context {JSValue : Type}.
Variable JSON_parse : string -> option JSValue.
Variable JSON_stringify : WebSocketMessage JSValue -> option string.
Variable REACT_APP_WS_URL : option string.
Variable WebSocket_accepts : string -> bool.

Local Abbreviation State := (State JSValue).
Local Abbreviation Event := (Event JSValue).
Local Abbreviation step :=
  (step JSON_parse JSON_stringify REACT_APP_WS_URL WebSocket_accepts).
Local Abbreviation run :=
  (run JSON_parse JSON_stringify REACT_APP_WS_URL WebSocket_accepts).
Local Abbreviation connect := (connect REACT_APP_WS_URL WebSocket_accepts).
Local Abbreviation wsUrl := (wsUrl REACT_APP_WS_URL).
Local Abbreviation base_address := (base_address REACT_APP_WS_URL).
Local Abbreviation sendMessage := (sendMessage JSON_stringify).
Local Abbreviation onmessage := (onmessage JSON_parse).
Local Abbreviation reachable :=
  (reachable JSON_parse JSON_stringify REACT_APP_WS_URL WebSocket_accepts).
Local Abbreviation decode_failures := (decode_failures JSON_parse).

Implicit Types (w : State) (e : Event) (evs : list Event).

(** *** How [run] unfolds *)

Lemma run_nil w : run w [] = w.
Proof. reflexivity. Qed.

Lemma run_cons w e evs : run w (e :: evs) = run (step w e) evs.
Proof. reflexivity. Qed.

Lemma run_app w evs1 evs2 : run w (evs1 ++ evs2) = run (run w evs1) evs2.
Proof. unfold run. apply foldl_app. Qed.

Lemma reachable_run w evs : reachable w -> reachable (run w evs).
Proof.
  revert w. induction evs as [|e evs IH]; intros w Hw; [exact Hw|].
  rewrite run_cons. apply IH. by constructor.
Qed.

(** *** [sendMessage] *)

Lemma sendMessage_not_open (message : WebSocketMessage JSValue) w :
  current_readyState w ≠ Some OPEN ->
  sendMessage message w = (Returned, console_write warn_not_connected w).
Proof. intros H. unfold sendMessage. by rewrite decide_False. Qed.

(** C10, as the code has it: when the socket in [wsRef] is not open (or
    there is none), [sendMessage] returns normally, transmits nothing, and
    leaves the message buffer, the connected flag, the socket reference and
    the reconnect timer (the ref and the pending timeouts) as they were; its
    only effect is the console warning.  The call throws in one case only:
    the socket is open and [JSON.stringify] throws on the message; then
    nothing is sent and the state is as it was. *)
Theorem sendMessage_throws_only_from_stringify
    (message : WebSocketMessage JSValue) w :
  (current_readyState w ≠ Some OPEN ->
   let r := sendMessage message w in
   r.1 = Returned
   ∧ messages r.2 = messages w
   ∧ isConnected r.2 = isConnected w
   ∧ wsRef r.2 = wsRef w
   ∧ reconnectTimeoutRef r.2 = reconnectTimeoutRef w
   ∧ timers r.2 = timers w
   ∧ nextTimer r.2 = nextTimer w
   ∧ sockets r.2 = sockets w
   ∧ auth r.2 = auth w
   ∧ console r.2 = console w ++ [warn_not_connected])
  ∧ ((sendMessage message w).1 = Threw
     ↔ current_readyState w = Some OPEN ∧ JSON_stringify message = None)
  ∧ ((sendMessage message w).1 = Threw -> (sendMessage message w).2 = w).
Proof.
  split; [|split].
  - intros H r. subst r. rewrite (sendMessage_not_open _ _ H). simpl.
    repeat split.
  - unfold sendMessage. case_decide as Ho.
    + destruct (JSON_stringify message); [|done].
      destruct (wsRef w); simpl; split; intros H; try discriminate H;
        by destruct H.
    + simpl. split; [discriminate|]. by intros [? _].
  - unfold sendMessage. case_decide; [|discriminate].
    destruct (JSON_stringify message); [|done].
    by destruct (wsRef w).
Qed.

(** *** [connect] *)

Lemma connect_open agentId w :
  current_readyState w = Some OPEN -> connect agentId w = (Returned, w).
Proof. intros H. unfold connect. by rewrite decide_True. Qed.

Lemma connect_not_open agentId w :
  current_readyState w ≠ Some OPEN ->
  WebSocket_accepts (wsUrl agentId) = true ->
  connect agentId w =
    (Returned,
     set_wsRef (Some (length (sockets w)))
       (set_sockets
          (sockets w ++ [mkWebSocket (wsUrl agentId) agentId CONNECTING []]) w)).
Proof. intros H Ha. unfold connect. by rewrite decide_False, Ha. Qed.

Lemma connect_refused agentId w :
  current_readyState w ≠ Some OPEN ->
  WebSocket_accepts (wsUrl agentId) = false ->
  connect agentId w = (Threw, w).
Proof. intros H Ha. unfold connect. by rewrite decide_False, Ha. Qed.

Lemma lookup_new_socket (ss : list WebSocket) (ws : WebSocket) :
  (ss ++ [ws]) !! length ss = Some ws.
Proof. by rewrite list_lookup_middle. Qed.

(** C4, as the code has it: [connect] does nothing exactly when the socket
    in [wsRef] is open.  In every other case (no socket yet, or one that is
    connecting, closing or closed), where the constructor accepts the
    endpoint of its argument, it constructs exactly one new socket in state
    [CONNECTING] there, makes it the current one, and leaves the flag, the
    buffer and the timer as they were; where the constructor refuses the
    endpoint, the call throws and nothing changes. *)
Theorem connect_noop_exactly_when_open agentId w :
  (current_readyState w = Some OPEN -> connect agentId w = (Returned, w))
  ∧ (current_readyState w ≠ Some OPEN ->
     WebSocket_accepts (wsUrl agentId) = true ->
     let w' := (connect agentId w).2 in
     (connect agentId w).1 = Returned
     ∧ sockets w' = sockets w ++ [mkWebSocket (wsUrl agentId) agentId CONNECTING []]
     ∧ wsRef w' = Some (length (sockets w))
     ∧ current_readyState w' = Some CONNECTING
     ∧ isConnected w' = isConnected w
     ∧ messages w' = messages w
     ∧ reconnectTimeoutRef w' = reconnectTimeoutRef w
     ∧ timers w' = timers w)
  ∧ (current_readyState w ≠ Some OPEN ->
     WebSocket_accepts (wsUrl agentId) = false ->
     connect agentId w = (Threw, w)).
Proof.
  split; [apply connect_open|]. split; [|apply connect_refused].
  intros H Ha w'. subst w'. rewrite (connect_not_open _ _ H Ha).
  repeat split. unfold current_readyState. simpl.
  by rewrite lookup_new_socket.
Qed.

(** *** The endpoint *)

Lemma string_length_app (a b : string) :
  String.length (a +:+ b) = String.length a + String.length b.
Proof. induction a as [|c a IH]; simpl; [done|]. by rewrite IH. Qed.

Lemma string_app_inj_l (s a b : string) : s +:+ a = s +:+ b -> a = b.
Proof. induction s as [|c s IH]; simpl; [done|]. intros [=]. auto. Qed.

Lemma string_app_inj_r (s : string) : ∀ a b : string, a +:+ s = b +:+ s -> a = b.
Proof.
  induction a as [|c a IH]; intros [|d b] H; simpl in H; [done| | |].
  - apply (f_equal String.length) in H.
    rewrite !string_length_app in H. simpl in H. lia.
  - apply (f_equal String.length) in H.
    rewrite !string_length_app in H. simpl in H. lia.
  - injection H as -> H. f_equal. by apply IH.
Qed.

Lemma wsUrl_convention agentId :
  wsUrl agentId = endpoint_convention base_address (scope_of agentId).
Proof.
  unfold wsUrl, scope_of. destruct agentId as [a|]; [|done].
  by destruct (decide (a = "")).
Qed.

Lemma endpoint_convention_inj (base : string) (sc1 sc2 : Scope) :
  endpoint_convention base sc1 = endpoint_convention base sc2 -> sc1 = sc2.
Proof.
  destruct sc1 as [|a], sc2 as [|b]; simpl; intros H;
    apply string_app_inj_l in H; simpl in H; try done; try discriminate H.
  injection H as H. apply (string_app_inj_l "") in H.
  apply string_app_inj_r in H. by subst.
Qed.

(** C9: the endpoint is a function of the scope.  The URL [connect] hands
    to the constructor is the per-agent path with the identifier for an
    agent scope and the global path for the global scope, both under the
    configured base address ([REACT_APP_WS_URL], or [ws://localhost:5000]
    when that is unset or empty).  Arguments of the same scope get the same
    endpoint and arguments of different scopes different ones, and a socket
    that [connect] constructs is at that endpoint. *)
Theorem endpoint_of_scope (agentId agentId' : option string) w :
  wsUrl agentId = endpoint_convention base_address (scope_of agentId)
  ∧ (REACT_APP_WS_URL = None ∨ REACT_APP_WS_URL = Some "" ->
     base_address = "ws://localhost:5000")
  ∧ (∀ u, REACT_APP_WS_URL = Some u -> u ≠ "" -> base_address = u)
  ∧ (scope_of agentId = scope_of agentId' <-> wsUrl agentId = wsUrl agentId')
  ∧ (current_readyState w ≠ Some OPEN ->
     WebSocket_accepts (wsUrl agentId) = true ->
     sockets (connect agentId w).2 !! length (sockets w)
       = Some (mkWebSocket
                 (endpoint_convention base_address (scope_of agentId))
                 agentId CONNECTING [])).
Proof.
  split; [apply wsUrl_convention|]. split; [|split; [|split]].
  - unfold base_address. by intros [->| ->].
  - intros u -> Hu. unfold base_address. by rewrite decide_False.
  - rewrite !wsUrl_convention. split; [by intros ->|].
    apply endpoint_convention_inj.
  - intros H Ha. rewrite (connect_not_open _ _ H Ha). simpl.
    by rewrite lookup_new_socket, wsUrl_convention.
Qed.

(** *** The session *)

Lemma current_readyState_set_auth a w :
  current_readyState (set_auth a w) = current_readyState w.
Proof. reflexivity. Qed.

(** C5, as the code has it: [connect] never consults the session provider.
    Whatever the session is (also one without token and user), the call ends
    and changes the state as it does for any other session, and where the
    current socket is not open and the constructor accepts the endpoint it
    opens a transport. *)
Theorem connect_ignores_session (a : Auth.AuthState) agentId w :
  connect agentId (set_auth a w)
    = ((connect agentId w).1, set_auth a (connect agentId w).2)
  ∧ (current_readyState w ≠ Some OPEN ->
     WebSocket_accepts (wsUrl agentId) = true ->
     (connect agentId (set_auth a w)).1 = Returned
     ∧ length (sockets (connect agentId (set_auth a w)).2)
         = S (length (sockets w))).
Proof.
  split.
  - unfold connect. rewrite current_readyState_set_auth.
    case_decide; [done|]. by destruct (WebSocket_accepts (wsUrl agentId)).
  - intros H Ha. rewrite connect_not_open by done. simpl.
    rewrite length_app. simpl. split; [done|lia].
Qed.

(** *** Inbound frames *)

Lemma step_message s data w ws :
  sockets w !! s = Some ws -> readyState ws = OPEN ->
  step w (Ev_message s data) = onmessage data w.
Proof.
  intros Hs Ho. unfold step. simpl. rewrite Hs.
  by rewrite bool_decide_true.
Qed.

Lemma onmessage_sockets data w : sockets (onmessage data w) = sockets w.
Proof. unfold onmessage. by destruct (JSON_parse data). Qed.

Lemma onmessage_messages data w :
  messages (onmessage data w) = messages w ++ omap JSON_parse [data].
Proof.
  unfold onmessage. simpl.
  destruct (JSON_parse data); simpl; [done|]. by rewrite app_nil_r.
Qed.

Lemma run_frames s frames : ∀ w ws,
  sockets w !! s = Some ws -> readyState ws = OPEN ->
  messages (run w (Ev_message s <$> frames)) = messages w ++ omap JSON_parse frames
  ∧ sockets (run w (Ev_message s <$> frames)) = sockets w.
Proof.
  induction frames as [|d frames IH]; intros w ws Hs Ho.
  - simpl. by rewrite app_nil_r.
  - rewrite fmap_cons, run_cons, (step_message _ _ _ _ Hs Ho).
    destruct (IH (onmessage d w) ws) as [Hm Hk].
    { by rewrite onmessage_sockets. } { done. }
    rewrite Hm, Hk, onmessage_sockets, onmessage_messages.
    split; [|done]. rewrite <- app_assoc. f_equal.
    change (d :: frames) with ([d] ++ frames). by rewrite omap_app.
Qed.

Lemma length_omap_failures (frames : list string) :
  length (omap JSON_parse frames) + decode_failures frames = length frames.
Proof.
  unfold decode_failures.
  induction frames as [|d frames IH]; [done|].
  csimpl. rewrite filter_cons.
  destruct (JSON_parse d) eqn:E.
  - rewrite decide_False by done. simpl. lia.
  - rewrite decide_True by done. simpl. lia.
Qed.

(** Handlers other than [onmessage] do not touch the buffer. *)
Lemma connect_messages agentId w :
  messages (connect agentId w).2 = messages w.
Proof.
  unfold connect. case_decide; [done|].
  by destruct (WebSocket_accepts (wsUrl agentId)).
Qed.

Lemma disconnect_messages w : messages (disconnect w) = messages w.
Proof.
  unfold disconnect.
  destruct (reconnectTimeoutRef w); simpl; by destruct (wsRef w).
Qed.

Lemma sendMessage_messages (message : WebSocketMessage JSValue) w :
  messages (sendMessage message w).2 = messages w.
Proof.
  unfold sendMessage. case_decide; [|done].
  destruct (JSON_stringify message); [|done]. by destruct (wsRef w).
Qed.

Lemma onopen_messages w : messages (onopen w) = messages w.
Proof. unfold onopen. simpl. by destruct (reconnectTimeoutRef w). Qed.

Lemma onclose_messages agentId code reason w :
  messages (onclose agentId code reason w) = messages w.
Proof. unfold onclose. simpl. by destruct (reconnectTimeoutRef w). Qed.

Lemma step_messages_other w e :
  is_message e = false -> messages (step w e) = messages w.
Proof.
  intros He. unfold step.
  destruct (enabled w e); [|done].
  destruct e as [agentId| |message|s|s d|s|s code reason|t|];
    try discriminate He.
  - apply connect_messages.
  - apply disconnect_messages.
  - apply sendMessage_messages.
  - by rewrite onopen_messages.
  - done.
  - destruct (sockets w !! s); [|done]. by rewrite onclose_messages.
  - destruct (timers w !! t); [|done]. by rewrite connect_messages.
  - apply disconnect_messages.
Qed.

Lemma step_messages_prefix w e : messages w `prefix_of` messages (step w e).
Proof.
  destruct (is_message e) eqn:He.
  - destruct e as [agentId| |message|s|s d|s|s code reason|t|];
      try discriminate He.
    unfold step. destruct (enabled w _); [|done].
    rewrite onmessage_messages. by apply prefix_app_r.
  - by rewrite step_messages_other.
Qed.

(** C2, as the code has it: the buffer is unbounded and nothing is ever
    evicted.  Every reaction leaves the old buffer as a prefix of the new one,
    and after any batch of frames on an open socket the buffer is the old one
    followed by every frame that decoded, in arrival order. *)
Theorem buffer_keeps_every_frame w s ws (frames : list string) :
  (∀ e, messages w `prefix_of` messages (step w e))
  ∧ (sockets w !! s = Some ws -> readyState ws = OPEN ->
     messages (run w (Ev_message s <$> frames))
       = messages w ++ omap JSON_parse frames).
Proof.
  split; [intros e; apply step_messages_prefix|].
  intros Hs Ho. by destruct (run_frames s frames w ws Hs Ho).
Qed.

(** C7, as the code has it: the provider assigns no sequence number.  After
    N frames on an open socket the consumers see N minus the decode failures
    new entries behind the old ones: exactly the values [JSON.parse] gave for
    the frames that decoded, unchanged and in arrival order; and no reaction
    other than [onmessage] (so no reconnection) changes the buffer. *)
Theorem observed_entries_are_the_decoded_frames w s ws (frames : list string) :
  (sockets w !! s = Some ws -> readyState ws = OPEN ->
   let w' := run w (Ev_message s <$> frames) in
   length (messages w') + decode_failures frames
     = length (messages w) + length frames
   ∧ take (length (messages w)) (messages w') = messages w
   ∧ drop (length (messages w)) (messages w') = omap JSON_parse frames
   ∧ Forall (λ m, ∃ d, d ∈ frames ∧ JSON_parse d = Some m)
            (drop (length (messages w)) (messages w')))
  ∧ (∀ e, is_message e = false -> messages (step w e) = messages w).
Proof.
  split; [|intros e; apply step_messages_other].
  intros Hs Ho w'. subst w'.
  destruct (run_frames s frames w ws Hs Ho) as [-> _]. split; [|split; [|split]].
  - rewrite length_app. pose proof (length_omap_failures frames). lia.
  - by rewrite take_app_length.
  - by rewrite drop_app_length.
  - rewrite drop_app_length. apply Forall_forall. intros m Hm.
    by apply list_elem_of_omap in Hm.
Qed.

(** C8, as the code has it: a frame that fails to decode is dropped and the
    failure is caught and written to the console.  Nothing else changes: the
    buffer, the connected flag, the sockets, the refs and the timers are the
    same, so the consumers of the context see no event. *)
Theorem malformed_frame_is_logged_and_dropped w s ws (data : string) :
  sockets w !! s = Some ws -> readyState ws = OPEN ->
  JSON_parse data = None ->
  step w (Ev_message s data) = console_write error_parse w
  ∧ context_value (step w (Ev_message s data)) = context_value w
  ∧ sockets (step w (Ev_message s data)) = sockets w.
Proof.
  intros Hs Ho Hp. rewrite (step_message _ _ _ _ Hs Ho).
  unfold onmessage. by rewrite Hp.
Qed.

(** *** One buffer, one flag *)

Lemma step_close s code reason w ws :
  sockets w !! s = Some ws -> readyState ws ≠ CLOSED ->
  step w (Ev_close s code reason) =
    onclose (closure_agentId ws) code reason
      (set_sockets (alter (ws_set_readyState CLOSED) s (sockets w)) w).
Proof.
  intros Hs Hc. unfold step. simpl. rewrite Hs.
  by rewrite bool_decide_true.
Qed.

Lemma step_error s w ws :
  sockets w !! s = Some ws -> readyState ws ≠ CLOSED ->
  step w (Ev_error s) = onerror w.
Proof.
  intros Hs Hc. unfold step. simpl. rewrite Hs.
  by rewrite bool_decide_true.
Qed.

Lemma onclose_isConnected agentId code reason w :
  isConnected (onclose agentId code reason w) = false.
Proof. unfold onclose. simpl. by destruct (reconnectTimeoutRef w). Qed.

(** C6, as the code has it: the provider is not keyed by scope; it has one
    buffer, one connected flag and one socket reference.  A frame decoded on
    any open socket, whichever scope it was opened for and whether or not it
    is the current one, is appended to the one buffer; a close or an error
    event of any socket that is not closed yet clears the one flag. *)
Theorem one_buffer_and_flag_for_all_scopes w s ws :
  sockets w !! s = Some ws ->
  (readyState ws = OPEN -> ∀ data message,
     JSON_parse data = Some message ->
     messages (step w (Ev_message s data)) = messages w ++ [message])
  ∧ (readyState ws ≠ CLOSED -> ∀ code reason,
     isConnected (step w (Ev_close s code reason)) = false)
  ∧ (readyState ws ≠ CLOSED -> isConnected (step w (Ev_error s)) = false).
Proof.
  intros Hs. repeat split.
  - intros Ho data message Hp. rewrite (step_message _ _ _ _ Hs Ho).
    rewrite onmessage_messages. csimpl. by rewrite Hp.
  - intros Hc code reason. rewrite (step_close _ _ _ _ _ Hs Hc).
    apply onclose_isConnected.
  - intros Hc. by rewrite (step_error _ _ _ Hs Hc).
Qed.

(** *** What is transmitted *)

Lemma onopen_sockets w : sockets (onopen w) = sockets w.
Proof. unfold onopen. simpl. by destruct (reconnectTimeoutRef w). Qed.

Lemma onclose_sockets agentId code reason w :
  sockets (onclose agentId code reason w) = sockets w.
Proof. unfold onclose. simpl. by destruct (reconnectTimeoutRef w). Qed.

Lemma lookup_alter_sent (f : WebSocket -> WebSocket) (l : list WebSocket) i j ws :
  (∀ x, sent (f x) = sent x) ->
  l !! j = Some ws -> sent <$> alter f i l !! j = Some (sent ws).
Proof.
  intros Hf Hj. destruct (decide (i = j)) as [->|Hne].
  - rewrite list_lookup_alter_eq, Hj. simpl. by rewrite Hf.
  - by rewrite list_lookup_alter_ne, Hj.
Qed.

Lemma ws_close_sent ws : sent (ws_close ws) = sent ws.
Proof. unfold ws_close. by destruct (readyState ws). Qed.

Lemma connect_sent agentId w j ws :
  sockets w !! j = Some ws ->
  sent <$> sockets (connect agentId w).2 !! j = Some (sent ws).
Proof.
  intros Hj. unfold connect. case_decide; simpl; [by rewrite Hj|].
  destruct (WebSocket_accepts (wsUrl agentId)); simpl; [|by rewrite Hj].
  rewrite lookup_app_l by (by eapply lookup_lt_Some). by rewrite Hj.
Qed.

Lemma disconnect_sent w j ws :
  sockets w !! j = Some ws ->
  sent <$> sockets (disconnect w) !! j = Some (sent ws).
Proof.
  intros Hj. unfold disconnect.
  destruct (reconnectTimeoutRef w); simpl; destruct (wsRef w); simpl;
    try (by rewrite Hj); by apply lookup_alter_sent; [apply ws_close_sent|].
Qed.

(** Only a call of [sendMessage] transmits: every other reaction leaves what
    each socket was given so far as it is. *)
Lemma step_sent_other w e j ws :
  is_send e = false -> sockets w !! j = Some ws ->
  sent <$> sockets (step w e) !! j = Some (sent ws).
Proof.
  intros He Hj. unfold step.
  destruct (enabled w e); [|by rewrite Hj].
  destruct e as [agentId| |message|s|s d|s|s code reason|t|];
    try discriminate He.
  - by apply connect_sent.
  - by apply disconnect_sent.
  - rewrite onopen_sockets. simpl. by apply lookup_alter_sent.
  - rewrite onmessage_sockets. by rewrite Hj.
  - simpl. by rewrite Hj.
  - destruct (sockets w !! s); [|by rewrite Hj].
    rewrite onclose_sockets. simpl. by apply lookup_alter_sent.
  - destruct (timers w !! t); [|by rewrite Hj]. by apply connect_sent.
  - by apply disconnect_sent.
Qed.

Lemma sendMessage_open (message : WebSocketMessage JSValue) (frame : string) w i :
  current_readyState w = Some OPEN ->
  JSON_stringify message = Some frame -> wsRef w = Some i ->
  sendMessage message w =
    (Returned, set_sockets (alter (ws_send frame) i (sockets w)) w).
Proof.
  intros Ho Hf Hi. unfold sendMessage.
  by rewrite decide_True, Hf, Hi.
Qed.

(** C3, as the code has it: [sendMessage] hands the frame to the current
    socket at once when that socket is open; otherwise the message is
    discarded with a console warning and the call returns normally (also on a
    provider that never connected).  There is no outbound queue: no reaction
    other than a [sendMessage] call, in particular no open event, transmits
    anything. *)
Theorem send_transmits_or_discards (message : WebSocketMessage JSValue) w :
  (current_readyState w = Some OPEN ->
   ∀ frame, JSON_stringify message = Some frame ->
   ∃ i ws, wsRef w = Some i ∧ sockets w !! i = Some ws
     ∧ (sendMessage message w).1 = Returned
     ∧ sockets (sendMessage message w).2 !! i = Some (ws_send frame ws)
     ∧ ∀ j, j ≠ i -> sockets (sendMessage message w).2 !! j = sockets w !! j)
  ∧ (current_readyState w ≠ Some OPEN ->
     sendMessage message w = (Returned, console_write warn_not_connected w))
  ∧ (∀ e j ws, is_send e = false -> sockets w !! j = Some ws ->
     sent <$> sockets (step w e) !! j = Some (sent ws)).
Proof.
  split; [|split; [apply sendMessage_not_open|intros e j ws; apply step_sent_other]].
  intros Ho frame Hf.
  unfold current_readyState in Ho.
  destruct (wsRef w) as [i|] eqn:Hi; [|discriminate Ho]. simpl in Ho.
  destruct (sockets w !! i) as [ws|] eqn:Hs; [|discriminate Ho].
  exists i, ws. split; [done|]. split; [done|].
  rewrite (sendMessage_open message frame w i); simpl;
    [|unfold current_readyState; by rewrite Hi; simpl; rewrite Hs|done|done].
  split; [done|]. split.
  - by rewrite list_lookup_alter_eq, Hs.
  - intros j Hj. by rewrite list_lookup_alter_ne.
Qed.

(** *** The reconnect timer *)

Lemma connect_timers agentId w :
  timers (connect agentId w).2 = timers w
  ∧ reconnectTimeoutRef (connect agentId w).2 = reconnectTimeoutRef w.
Proof.
  unfold connect. case_decide; [done|].
  by destruct (WebSocket_accepts (wsUrl agentId)).
Qed.

Lemma sendMessage_timers (message : WebSocketMessage JSValue) w :
  timers (sendMessage message w).2 = timers w
  ∧ reconnectTimeoutRef (sendMessage message w).2 = reconnectTimeoutRef w.
Proof.
  unfold sendMessage. case_decide; [|done].
  destruct (JSON_stringify message); [|done]. by destruct (wsRef w).
Qed.

Lemma disconnect_timers w :
  timers (disconnect w)
    = match reconnectTimeoutRef w with
      | Some t => delete t (timers w)
      | None => timers w
      end
  ∧ reconnectTimeoutRef (disconnect w) = None
  ∧ wsRef (disconnect w) = None
  ∧ isConnected (disconnect w) = false.
Proof.
  unfold disconnect.
  destruct (reconnectTimeoutRef w) eqn:E; simpl;
    destruct (wsRef w) eqn:F; simpl; by rewrite ?E, ?F.
Qed.

Lemma onopen_timers w :
  timers (onopen w)
    = match reconnectTimeoutRef w with
      | Some t => delete t (timers w)
      | None => timers w
      end
  ∧ reconnectTimeoutRef (onopen w) = None.
Proof. unfold onopen. simpl. by destruct (reconnectTimeoutRef w) eqn:E. Qed.

Lemma onclose_timers agentId code reason w :
  match reconnectTimeoutRef w with
  | Some t =>
      timers (onclose agentId code reason w) = timers w
      ∧ reconnectTimeoutRef (onclose agentId code reason w) = Some t
  | None =>
      timers (onclose agentId code reason w) = <[nextTimer w := agentId]> (timers w)
      ∧ reconnectTimeoutRef (onclose agentId code reason w) = Some (nextTimer w)
  end.
Proof. unfold onclose. simpl. by destruct (reconnectTimeoutRef w) eqn:E. Qed.

(** Clearing the handle in the ref leaves nothing pending. *)
Lemma cleared_nothing_pending w :
  only_ref_pending w ->
  match reconnectTimeoutRef w with
  | Some t => delete t (timers w)
  | None => timers w
  end = ∅.
Proof.
  intros Hinv. apply map_empty. intros k.
  destruct (reconnectTimeoutRef w) as [t|] eqn:E.
  - destruct (decide (t = k)) as [->|Hne]; [apply lookup_delete_eq|].
    rewrite lookup_delete_ne by done.
    destruct (timers w !! k) eqn:Hk; [|done].
    assert (reconnectTimeoutRef w = Some k) by (apply Hinv; by rewrite Hk).
    congruence.
  - destruct (timers w !! k) eqn:Hk; [|done].
    assert (reconnectTimeoutRef w = Some k) by (apply Hinv; by rewrite Hk).
    congruence.
Qed.

Lemma only_ref_pending_empty w : timers w = ∅ -> only_ref_pending w.
Proof. intros H t [x Hx]. rewrite H in Hx. by rewrite lookup_empty in Hx. Qed.

Lemma only_ref_pending_step w e : only_ref_pending w -> only_ref_pending (step w e).
Proof.
  intros Hinv. unfold step. destruct (enabled w e); [|done].
  destruct e as [agentId| |message|s|s d|s|s code reason|t|].
  - intros t. destruct (connect_timers agentId w) as [-> ->]. apply Hinv.
  - apply only_ref_pending_empty.
    destruct (disconnect_timers w) as [-> _]. by apply cleared_nothing_pending.
  - intros t. destruct (sendMessage_timers message w) as [-> ->]. apply Hinv.
  - apply only_ref_pending_empty.
    match goal with |- timers (onopen ?v) = _ =>
      destruct (onopen_timers v) as [-> _] end.
    by apply cleared_nothing_pending.
  - unfold onmessage. by destruct (JSON_parse d).
  - exact Hinv.
  - destruct (sockets w !! s) as [ws|]; [|done].
    match goal with |- only_ref_pending (onclose ?a ?c ?r ?v) =>
      pose proof (onclose_timers a c r v) as H end.
    simpl in H. intros t.
    destruct (reconnectTimeoutRef w) as [t0|] eqn:E.
    + destruct H as [-> ->]. simpl. intros Ht. rewrite <- E. by apply Hinv.
    + destruct H as [-> ->]. intros Ht.
      destruct (decide (nextTimer w = t)) as [->|Hne]; [done|].
      rewrite lookup_insert_ne in Ht by done.
      apply Hinv in Ht. congruence.
  - destruct (timers w !! t) as [agentId|] eqn:Ht; [|done].
    intros k. destruct (connect_timers agentId (expire t w)) as [-> ->]. simpl.
    intros Hk. apply Hinv.
    destruct (decide (t = k)) as [->|Hne].
    + by rewrite lookup_delete_eq in Hk; destruct Hk.
    + by rewrite lookup_delete_ne in Hk.
  - apply only_ref_pending_empty.
    destruct (disconnect_timers w) as [-> _]. by apply cleared_nothing_pending.
Qed.

Lemma only_ref_pending_reachable w : reachable w -> only_ref_pending w.
Proof.
  induction 1 as [a|w e _ IH].
  - by apply only_ref_pending_empty.
  - by apply only_ref_pending_step.
Qed.

(** Only [onclose] arms a timeout. *)
Lemma step_keeps_nothing_pending w e :
  is_close e = false -> timers w = ∅ -> timers (step w e) = ∅.
Proof.
  intros He Hw. pose proof (only_ref_pending_empty w Hw) as Hinv.
  unfold step. destruct (enabled w e) eqn:Hen; [|done].
  destruct e as [agentId| |message|s|s d|s|s code reason|t|];
    try discriminate He.
  - by destruct (connect_timers agentId w) as [-> _].
  - destruct (disconnect_timers w) as [-> _]. by apply cleared_nothing_pending.
  - by destruct (sendMessage_timers message w) as [-> _].
  - match goal with |- timers (onopen ?v) = _ =>
      destruct (onopen_timers v) as [-> _] end.
    by apply cleared_nothing_pending.
  - unfold onmessage. by destruct (JSON_parse d).
  - done.
  - simpl in Hen. rewrite Hw, lookup_empty in Hen. discriminate Hen.
  - destruct (disconnect_timers w) as [-> _]. by apply cleared_nothing_pending.
Qed.

Lemma run_keeps_nothing_pending evs : ∀ w,
  Forall (λ e, is_close e = false) evs -> timers w = ∅ -> timers (run w evs) = ∅.
Proof.
  induction evs as [|e evs IH]; intros w Hevs Hw; [done|].
  inversion Hevs; subst. rewrite run_cons. apply IH; [done|].
  by apply step_keeps_nothing_pending.
Qed.

(** C1, as the code has it: [disconnect] cancels the reconnect timer
    synchronously.  When it returns, no timeout is pending, the timer ref and
    the socket ref are null, the connected flag is false and the buffer is
    untouched; and as long as no close event is delivered afterwards nothing
    becomes pending, so no timeout can expire.  (What a close event of the
    closed socket does after that is not part of this statement.) *)
Theorem disconnect_cancels_pending_timer w :
  reachable w ->
  let w' := disconnect w in
  timers w' = ∅
  ∧ reconnectTimeoutRef w' = None
  ∧ wsRef w' = None
  ∧ isConnected w' = false
  ∧ messages w' = messages w
  ∧ ∀ evs, Forall (λ e, is_close e = false) evs ->
      timers (run w' evs) = ∅
      ∧ ∀ t, enabled (run w' evs) (Ev_timeout t) = false.
Proof.
  intros Hw w'. subst w'.
  pose proof (only_ref_pending_reachable w Hw) as Hinv.
  destruct (disconnect_timers w) as (Ht & Hr & Hs & Hc).
  assert (timers (disconnect w) = ∅) as He.
  { rewrite Ht. by apply cleared_nothing_pending. }
  repeat split; try done.
  - apply disconnect_messages.
  - by apply run_keeps_nothing_pending.
  - unfold enabled. by rewrite run_keeps_nothing_pending.
Qed.

(** *** More on the reconnect timer *)

Local Abbreviation endpoints_match := (endpoints_match REACT_APP_WS_URL).

Lemma timers_of_reachable w :
  reachable w ->
  timers w = ∅
  ∨ ∃ t agentId, reconnectTimeoutRef w = Some t ∧ timers w = {[t := agentId]}.
Proof.
  intros Hw. pose proof (only_ref_pending_reachable w Hw) as Hinv.
  pose proof (cleared_nothing_pending w Hinv) as Hc.
  destruct (reconnectTimeoutRef w) as [t|]; [|by left].
  destruct (timers w !! t) as [agentId|] eqn:Ht.
  - right. exists t, agentId. split; [done|].
    by rewrite <- (insert_delete_id (timers w) t agentId Ht), Hc, insert_empty.
  - left. by rewrite delete_id in Hc.
Qed.

(** X1: at every point of every history at most one timeout is pending,
    and a pending one is the one whose handle [reconnectTimeoutRef] holds. *)
Theorem at_most_one_timeout_pending w :
  reachable w ->
(size (timers w) ≤ 1)%nat
  ∧ ∀ t, is_Some (timers w !! t) -> reconnectTimeoutRef w = Some t.
Proof.
  intros Hw. split; [|by apply only_ref_pending_reachable].
  destruct (timers_of_reachable w Hw) as [->|(t & agentId & _ & ->)].
  - by rewrite map_size_empty; lia.
  - by rewrite map_size_singleton.
Qed.

Lemma onopen_isConnected w : isConnected (onopen w) = true.
Proof. unfold onopen. simpl. by destruct (reconnectTimeoutRef w). Qed.

(** X2: when any socket opens, whichever it is, the provider is flagged
    connected and the pending reconnect timeout is cancelled: nothing is
    pending afterwards and the timer ref is null. *)
Theorem open_cancels_pending_retry w s :
  reachable w -> enabled w (Ev_open s) = true ->
  let w' := step w (Ev_open s) in
  timers w' = ∅
  ∧ reconnectTimeoutRef w' = None
  ∧ isConnected w' = true
  ∧ readyState <$> sockets w' !! s = Some OPEN.
Proof.
  intros Hw Hen w'. subst w'. unfold step. rewrite Hen.
  pose proof (only_ref_pending_reachable w Hw) as Hinv.
  match goal with |- context [onopen ?v] =>
    destruct (onopen_timers v) as [-> ->] end.
  rewrite onopen_isConnected, onopen_sockets. simpl.
  split; [by apply cleared_nothing_pending|]. split; [done|]. split; [done|].
  simpl in Hen. rewrite list_lookup_alter_eq.
  by destruct (sockets w !! s).
Qed.

Lemma step_keeps_expired_handle w e t :
  reconnectTimeoutRef w = Some t -> timers w = ∅ ->
  clears_timer_ref e = false ->
  reconnectTimeoutRef (step w e) = Some t ∧ timers (step w e) = ∅.
Proof.
  intros Hr Ht He. unfold step. destruct (enabled w e) eqn:Hen; [|done].
  destruct e as [agentId| |message|s|s d|s|s code reason|t'|];
    try discriminate He.
  - by destruct (connect_timers agentId w) as [-> ->].
  - by destruct (sendMessage_timers message w) as [-> ->].
  - unfold onmessage. by destruct (JSON_parse d).
  - done.
  - destruct (sockets w !! s) as [ws|]; [|done].
    match goal with |- context [onclose ?a ?c ?r ?v] =>
      pose proof (onclose_timers a c r v) as H end.
    simpl in H. rewrite Hr in H. by destruct H as [-> ->].
  - simpl in Hen. rewrite Ht, lookup_empty in Hen. discriminate Hen.
Qed.

(** X3: once the timeout behind the handle in [reconnectTimeoutRef] has
    expired (or was never pending) and no socket has opened since, no
    reconnect is armed again: whatever closes, fails or is called, nothing
    becomes pending until a socket opens or [disconnect] runs. *)
Theorem expired_retry_is_not_rearmed w t evs :
  reconnectTimeoutRef w = Some t -> timers w = ∅ ->
  Forall (λ e, clears_timer_ref e = false) evs ->
  timers (run w evs) = ∅
  ∧ reconnectTimeoutRef (run w evs) = Some t
  ∧ ∀ t', enabled (run w evs) (Ev_timeout t') = false.
Proof.
  intros Hr Ht Hevs.
  assert (reconnectTimeoutRef (run w evs) = Some t ∧ timers (run w evs) = ∅)
    as [Hr' Ht'].
  { revert w Hr Ht. induction Hevs as [|e evs He _ IH]; intros w Hr Ht; [done|].
    rewrite run_cons.
    destruct (step_keeps_expired_handle w e t Hr Ht He) as [Hr1 Ht1].
    by apply IH. }
  split; [done|]. split; [done|].
  intros t'. simpl. by rewrite Ht', lookup_empty.
Qed.

(** *** Reconnection *)

Lemma endpoints_match_alter (f : WebSocket -> WebSocket) i (ss : list WebSocket) :
  (∀ ws, url (f ws) = url ws ∧ closure_agentId (f ws) = closure_agentId ws) ->
  Forall (λ ws, url ws = wsUrl (closure_agentId ws)) ss ->
  Forall (λ ws, url ws = wsUrl (closure_agentId ws)) (alter f i ss).
Proof.
  intros Hf Hw. apply Forall_alter; [done|]. intros ws _ Hws.
  destruct (Hf ws) as [-> ->]. exact Hws.
Qed.

Lemma ws_close_same ws :
  url (ws_close ws) = url ws ∧ closure_agentId (ws_close ws) = closure_agentId ws.
Proof. unfold ws_close. by destruct (readyState ws). Qed.

Lemma connect_endpoints_match agentId w :
  endpoints_match w -> endpoints_match (connect agentId w).2.
Proof.
  intros Hw. unfold connect. case_decide; [done|].
  destruct (WebSocket_accepts (wsUrl agentId)); [|done].
  unfold endpoints_match. simpl. apply Forall_app. split; [done|].
  by apply Forall_singleton.
Qed.

Local Abbreviation urls_accepted := (urls_accepted WebSocket_accepts).

Lemma urls_accepted_alter (f : WebSocket -> WebSocket) i (ss : list WebSocket) :
  (∀ ws, url (f ws) = url ws ∧ closure_agentId (f ws) = closure_agentId ws) ->
  Forall (λ ws, WebSocket_accepts (url ws) = true) ss ->
  Forall (λ ws, WebSocket_accepts (url ws) = true) (alter f i ss).
Proof.
  intros Hf Hw. apply Forall_alter; [done|]. intros ws _ Hws.
  by destruct (Hf ws) as [-> _].
Qed.

Lemma connect_urls_accepted agentId w :
  urls_accepted w -> urls_accepted (connect agentId w).2.
Proof.
  intros Hw. unfold connect. case_decide; [done|].
  destruct (WebSocket_accepts (wsUrl agentId)) eqn:Ha; [|done].
  unfold urls_accepted. simpl. apply Forall_app. split; [done|].
  by apply Forall_singleton.
Qed.

Lemma disconnect_urls_accepted w :
  urls_accepted w -> urls_accepted (disconnect w).
Proof.
  intros Hw. unfold urls_accepted, disconnect in *.
  destruct (reconnectTimeoutRef w); simpl; destruct (wsRef w); simpl; try done;
    by apply urls_accepted_alter; [apply ws_close_same|].
Qed.

Lemma urls_accepted_step w e : urls_accepted w -> urls_accepted (step w e).
Proof.
  intros Hw. unfold step. destruct (enabled w e); [|done].
  destruct e as [agentId| |message|s|s d|s|s code reason|t|].
  - by apply connect_urls_accepted.
  - by apply disconnect_urls_accepted.
  - unfold sendMessage. case_decide; [|done].
    destruct (JSON_stringify message); [|done].
    destruct (wsRef w) as [i|]; [|done]. simpl.
    by apply urls_accepted_alter.
  - unfold urls_accepted. rewrite onopen_sockets.
    by apply urls_accepted_alter.
  - unfold urls_accepted. by rewrite onmessage_sockets.
  - done.
  - destruct (sockets w !! s); [|done].
    unfold urls_accepted. rewrite onclose_sockets.
    by apply urls_accepted_alter.
  - destruct (timers w !! t); [|done]. by apply connect_urls_accepted.
  - by apply disconnect_urls_accepted.
Qed.

Lemma urls_accepted_reachable w : reachable w -> urls_accepted w.
Proof.
  induction 1 as [a|w e _ IH]; [by constructor|by apply urls_accepted_step].
Qed.

Lemma disconnect_endpoints_match w :
  endpoints_match w -> endpoints_match (disconnect w).
Proof.
  intros Hw. unfold endpoints_match, disconnect in *.
  destruct (reconnectTimeoutRef w); simpl; destruct (wsRef w); simpl; try done;
    by apply endpoints_match_alter; [apply ws_close_same|].
Qed.

Lemma endpoints_match_step w e : endpoints_match w -> endpoints_match (step w e).
Proof.
  intros Hw. unfold step. destruct (enabled w e); [|done].
  destruct e as [agentId| |message|s|s d|s|s code reason|t|].
  - by apply connect_endpoints_match.
  - by apply disconnect_endpoints_match.
  - unfold sendMessage. case_decide; [|done].
    destruct (JSON_stringify message); [|done].
    destruct (wsRef w) as [i|]; [|done]. simpl.
    by apply endpoints_match_alter.
  - unfold endpoints_match. rewrite onopen_sockets.
    by apply endpoints_match_alter.
  - unfold endpoints_match. by rewrite onmessage_sockets.
  - done.
  - destruct (sockets w !! s); [|done].
    unfold endpoints_match. rewrite onclose_sockets.
    by apply endpoints_match_alter.
  - destruct (timers w !! t); [|done]. by apply connect_endpoints_match.
  - by apply disconnect_endpoints_match.
Qed.

Lemma endpoints_match_reachable w : reachable w -> endpoints_match w.
Proof.
  induction 1 as [a|w e _ IH]; [by constructor|by apply endpoints_match_step].
Qed.

(** X4: when the current socket closes while no timer handle is held, the
    reconnect that follows reopens the same endpoint: after the close event
    and the expiry of the timeout it armed there is exactly one new socket,
    connecting at the URL of the socket that closed and for the same
    [agentId]; it is the current one, the buffer is as before, and the
    expired handle is still in [reconnectTimeoutRef]. *)
Theorem retry_reopens_same_endpoint w s ws code reason :
  reachable w ->
  wsRef w = Some s -> sockets w !! s = Some ws -> readyState ws ≠ CLOSED ->
  reconnectTimeoutRef w = None ->
  let w' := run w [Ev_close s code reason; Ev_timeout (nextTimer w)] in
  sockets w' = alter (ws_set_readyState CLOSED) s (sockets w)
                 ++ [mkWebSocket (url ws) (closure_agentId ws) CONNECTING []]
  ∧ wsRef w' = Some (length (sockets w))
  ∧ messages w' = messages w
  ∧ isConnected w' = false
  ∧ timers w' = ∅
  ∧ reconnectTimeoutRef w' = Some (nextTimer w).
Proof.
  intros Hw Href Hs Hc Hr w'. subst w'.
  assert (timers w = ∅) as Ht.
  { destruct (timers_of_reachable w Hw) as [?|(t & a & Ht & _)]; [done|congruence]. }
  assert (wsUrl (closure_agentId ws) = url ws) as Hu.
  { pose proof (endpoints_match_reachable w Hw) as He.
    unfold endpoints_match in He. rewrite Forall_lookup in He.
    symmetry. by apply (He s). }
  assert (WebSocket_accepts (url ws) = true) as Ha.
  { pose proof (urls_accepted_reachable w Hw) as He.
    unfold urls_accepted in He. rewrite Forall_lookup in He.
    by apply (He s). }
  rewrite run_cons, run_cons, run_nil, (step_close _ _ _ _ _ Hs Hc).
  unfold onclose. simpl. rewrite Hr. simpl.
  unfold step, enabled. simpl. rewrite Ht, lookup_insert_eq.
  unfold connect, current_readyState. simpl. rewrite Href. simpl.
  rewrite list_lookup_alter_eq, Hs. simpl.
  rewrite Hu, Ha. simpl.
  rewrite length_alter, delete_insert_eq, delete_empty. done.
Qed.

Lemma disconnect_sockets_length w :
  length (sockets (disconnect w)) = length (sockets w).
Proof.
  unfold disconnect.
  destruct (reconnectTimeoutRef w); simpl; destruct (wsRef w); simpl;
    by rewrite ?length_alter.
Qed.

(** X5: [disconnect] followed by [connect] always starts over: whatever the
    state was, where the constructor accepts the endpoint of its argument the
    second call constructs a new socket there, connecting and current, with
    the flag false, the timer ref null and the buffer kept; where the
    constructor refuses it, the call throws and the state stays as
    [disconnect] left it. *)
Theorem disconnect_then_connect_starts_over agentId w :
  (WebSocket_accepts (wsUrl agentId) = true ->
   let w' := (connect agentId (disconnect w)).2 in
   (connect agentId (disconnect w)).1 = Returned
   ∧ wsRef w' = Some (length (sockets w))
   ∧ sockets w' !! length (sockets w)
       = Some (mkWebSocket (wsUrl agentId) agentId CONNECTING [])
   ∧ current_readyState w' = Some CONNECTING
   ∧ isConnected w' = false
   ∧ reconnectTimeoutRef w' = None
   ∧ messages w' = messages w)
  ∧ (WebSocket_accepts (wsUrl agentId) = false ->
     connect agentId (disconnect w) = (Threw, disconnect w)).
Proof.
  destruct (disconnect_timers w) as (_ & Hr & Hs & Hc).
  pose proof (disconnect_sockets_length w) as Hl.
  pose proof (disconnect_messages w) as Hm.
  remember (disconnect w) as d eqn:Hd. clear Hd.
  assert (current_readyState d ≠ Some OPEN) as Hno.
  { unfold current_readyState. by rewrite Hs. }
  split; [|by apply connect_refused].
  intros Ha w'. subst w'.
  rewrite (connect_not_open _ _ Hno Ha). unfold current_readyState. simpl.
  rewrite <- Hl, lookup_new_socket, Hr, Hc, Hm. done.
Qed.

End Facts.

(** ** Properties of the session provider *)

Section SessionFacts.

Import Session.

Implicit Types (s : State) (e : Event) (evs : list Event).

Ltac session_unfold :=
  unfold mount, login, register, refreshToken, checkAuthStatus, logout,
    response_interceptor, request_authorization, request_interceptor,
    header_follows_token, setUser, setToken, setItem, removeItem,
    setIsLoading, console_write, set_auth, getItem, null, truthy_of,
    text_of in *.

Ltac session_cases :=
  repeat match goal with
         | |- context [decide ?P] => destruct (decide P); simpl in *
         | |- context [bool_decide ?P] =>
             destruct (bool_decide_reflect P); simpl in *
         | |- context [match ?x with _ => _ end] => destruct x eqn:?; simpl in *
         end.

(** X6: whatever [localStorage] holds and however the request of
    [checkAuthStatus] ends, once the mount effect has run to its end
    [isLoading] is false. *)
Theorem mount_always_ends_loading (o : Outcome Auth.User) s :
  Auth.isLoading (auth (mount o s)) = false.
Proof. session_unfold. destruct o; session_cases; done. Qed.

Lemma no_credential_step s e :
  grants_token e = false ->
  getItem s = None ∧ authorization s = None ->
  getItem (step s e) = None ∧ authorization (step s e) = None.
Proof.
  intros He [Hg Ha].
  destruct e as [o|o|o| |o]; simpl in *; session_unfold;
    try destruct o as [r|st]; try discriminate He; simpl in *;
    rewrite ?Hg, ?Ha; simpl; session_cases; done.
Qed.

(** X7: after [logout] there is no credential left anywhere: no user, no
    stored token, no default header.  It stays that way until a [login] or a
    [refreshToken] succeeds: through every history without such a success,
    requests carry no [Authorization] header. *)
Theorem logout_leaves_no_credential s evs :
  Auth.isAuthenticated (auth (logout s)) = false
  ∧ (Forall (λ e, grants_token e = false) evs ->
     let s' := run (logout s) evs in
     getItem s' = None
     ∧ authorization s' = None
     ∧ request_authorization s' = None).
Proof.
  split; [done|]. intros Hevs s'.
  assert (getItem s' = None ∧ authorization s' = None) as [Hg Ha].
  { subst s'. assert (getItem (logout s) = None ∧ authorization (logout s) = None)
      as H0 by done.
    revert H0. generalize (logout s).
    induction Hevs as [|e evs He _ IH]; intros s0 H0; [done|].
    apply (IH (step s0 e)). by apply no_credential_step. }
  split; [done|]. split; [done|].
  unfold request_authorization, request_interceptor. by rewrite Hg, Ha.
Qed.

(** X8: a successful [login] with a non-empty token signs the user in and
    makes every request carry that token, whatever the session was before:
    the token is stored, the user is set, and the [Authorization] header of a
    request is the bearer form of the new token. *)
Theorem login_success_authorizes_requests (token : string) (u : Auth.User) s :
  token ≠ "" ->
  let s' := (login (Fulfilled (Members (Str token) (Some u))) s).2 in
  (login (Fulfilled (Members (Str token) (Some u))) s).1 = Returned
  ∧ getItem s' = Some token
  ∧ Auth.isAuthenticated (auth s') = true
  ∧ authorization s' = Some ("Bearer " +:+ token)
  ∧ request_authorization s' = Some ("Bearer " +:+ token).
Proof.
  intros Hr. session_unfold. simpl. rewrite bool_decide_true by done. simpl.
  by rewrite decide_False.
Qed.

(** X9: a [login] or [register] that fails with anything but status 401
    rethrows and leaves the session as it was; only the console gets a
    line. *)
Theorem failed_login_or_register_keeps_session (status : option nat) s :
  status ≠ Some 401 ->
  login (Rejected status) s = (Threw, console_write error_login s)
  ∧ register (Rejected status) s = (Threw, console_write error_registration s).
Proof. intros Hs. session_unfold. simpl. by rewrite decide_False. Qed.

(** X10: a response with status 401 to any of the four requests removes the
    stored token and sends the browser to [/login]; [login] and [register]
    still rethrow, and they leave the default header and the user as they
    were. *)
Theorem unauthorized_response_drops_token_and_redirects s :
  let o1 : Outcome TokenResponse := Rejected (Some 401) in
  let o2 : Outcome Auth.User := Rejected (Some 401) in
  (∀ s', s' ∈ [(login o1 s).2; (register o2 s).2; (refreshToken o1 s).2;
               checkAuthStatus o2 s] ->
     getItem s' = None ∧ href s' = Some "/login")
  ∧ (login o1 s).1 = Threw ∧ (register o2 s).1 = Threw
  ∧ authorization (login o1 s).2 = authorization s
  ∧ authorization (register o2 s).2 = authorization s
  ∧ Auth.user (auth (login o1 s).2) = Auth.user (auth s)
  ∧ Auth.user (auth (register o2 s).2) = Auth.user (auth s).
Proof.
  intros o1 o2. split; [|done].
  intros s' Hs'. repeat (apply elem_of_cons in Hs' as [->|Hs']); try done.
  by apply elem_of_nil in Hs'.
Qed.

(** X11: a successful [register] signs the user in without any credential.
    In a session that has finished loading and holds no token and no default
    header, the application shows the pages afterwards, while nothing is
    stored and the requests that follow carry no [Authorization] header. *)
Theorem register_success_stores_no_token (u : Auth.User) s :
  Auth.isLoading (auth s) = false ->
  getItem s = None -> authorization s = None ->
  let s' := (register (Fulfilled u) s).2 in
  (register (Fulfilled u) s).1 = Returned
  ∧ App.App (auth s') = App.Pages
  ∧ getItem s' = None
  ∧ request_authorization s' = None.
Proof.
  intros Hl Hg Ha. session_unfold. simpl.
  unfold App.App, App.ProtectedRoute, App.AppContent. simpl.
  by rewrite Hl, Hg, Ha.
Qed.

(** X12: a [refreshToken] that fails, with whatever status, signs the user
    out and rethrows: no user, no stored token, no default header, no
    [Authorization] header on requests. *)
Theorem refresh_failure_signs_out (status : option nat) s :
  let s' := (refreshToken (Rejected status) s).2 in
  (refreshToken (Rejected status) s).1 = Threw
  ∧ Auth.isAuthenticated (auth s') = false
  ∧ getItem s' = None
  ∧ authorization s' = None
  ∧ request_authorization s' = None.
Proof. session_unfold. simpl. session_cases; done. Qed.

Lemma header_follows_token_mount (o : Outcome Auth.User) token :
  status_of (Mount o) ≠ Some 401 ->
  header_follows_token (mount o (loaded token)).
Proof.
  intros Ho. session_unfold. simpl in *.
  destruct token as [t|]; simpl; [|done].
  destruct (decide (t = "")); simpl; [by rewrite decide_True|].
  destruct o as [u|st]; simpl in *; session_cases; done.
Qed.

Lemma header_follows_token_step s e :
  status_of e ≠ Some 401 -> token_is_string e = true ->
  header_follows_token s -> header_follows_token (step s e).
Proof.
  intros He Ht Hs.
  destruct e as [o|o|o| |o]; simpl in *; session_unfold;
    try destruct o as [[|[t| |t b] u]|st]; try discriminate Ht; simpl in *;
    session_cases; first [congruence | tauto].
Qed.

(** X13: from the loaded page on, as long as no response has status 401 and
    every successful response to [login] and [refreshToken] carries its
    [access_token] as a string, the default header follows the stored token
    through every history of mount, login, register, logout and refresh: it
    is the bearer form of a non-empty stored token and absent otherwise, so
    no request carries a credential that is not the stored one. *)
Theorem default_header_follows_token token (o : Outcome Auth.User) evs :
  Forall (λ e, status_of e ≠ Some 401 ∧ token_is_string e = true)
         (Mount o :: evs) ->
  let s := run (loaded token) (Mount o :: evs) in
  header_follows_token s
  ∧ request_authorization s = authorization s.
Proof.
  intros Hevs s.
  assert (header_follows_token s) as Hs.
  { subst s. inversion Hevs as [|? ? [Ho _] Hrest]; subst.
    change (run (loaded token) (Mount o :: evs))
      with (run (mount o (loaded token)) evs).
    pose proof (header_follows_token_mount o token Ho) as H0.
    revert H0. generalize (mount o (loaded token)). clear Hevs Ho.
    induction Hrest as [|e evs [He Ht] _ IH]; intros s0 H0; [done|].
    apply (IH (step s0 e)). by apply header_follows_token_step. }
  split; [done|].
  revert Hs. generalize s. clear. intros s Hs. session_unfold.
  session_cases; congruence.
Qed.

End SessionFacts.

(** ** Properties of the application shell *)

(** X14: [App] never shows the public routes.  While loading it shows the
    spinner, for a signed-in user the pages, and for everyone else the
    redirection to [/login]: the branch of [AppContent] with the login and
    register routes is never reached. *)
Theorem public_routes_are_never_shown (a : Auth.AuthState) :
  App.App a ≠ App.PublicRoutes
  ∧ App.App a =
      if Auth.isLoading a then App.Spinner
      else if Auth.isAuthenticated a then App.Pages
      else App.Navigate "/login".
Proof.
  unfold App.App, App.ProtectedRoute, App.AppContent.
  destruct (Auth.isLoading a), (Auth.isAuthenticated a); by simpl.
Qed.

Lemma prefix_head (a b : ascii) (s1 s2 : string) :
  String.prefix (String a s1) (String b s2) = true ->
  a = b ∧ String.prefix s1 s2 = true.
Proof. simpl. by destruct (ascii_dec a b). Qed.

Ltac sidebar_absurd :=
  repeat match goal with
         | H : bool_decide (?p = _) = true |- _ =>
             apply bool_decide_eq_true in H; subst p; simpl in *
         | H : false = true |- _ => discriminate H
         | H : String.prefix (String _ _) "" = true |- _ => discriminate H
         | H : String.prefix (String _ _) (String _ _) = true |- _ =>
             apply prefix_head in H as [? H]; simplify_eq
         | H : String.prefix (String _ _) ?p = true |- _ =>
             is_var p; destruct p
         end.

(** X15: at every pathname at most one item of the sidebar is active, and
    the dashboard item is active at the root only. *)
Theorem at_most_one_item_active (pathname : string) (i1 i2 : Sidebar.Item) :
  (i1 ∈ Sidebar.navigation -> i2 ∈ Sidebar.navigation ->
   Sidebar.isActive pathname (Sidebar.href i1) = true ->
   Sidebar.isActive pathname (Sidebar.href i2) = true ->
   i1 = i2)
  ∧ (Sidebar.isActive pathname "/" = true ↔ pathname = "/").
Proof.
  split.
  - intros H1 H2 A1 A2. unfold Sidebar.navigation in *.
    repeat (apply elem_of_cons in H1 as [->|H1]);
      try (by apply elem_of_nil in H1);
      repeat (apply elem_of_cons in H2 as [->|H2]);
      try (by apply elem_of_nil in H2);
      try reflexivity; exfalso;
      unfold Sidebar.isActive in A1, A2; simpl in A1, A2;
      by sidebar_absurd.
  - unfold Sidebar.isActive. simpl. apply bool_decide_eq_true.
Qed.

(** ** Replayed histories *)

Section Replays.

Import JSON.

Local Abbreviation ts := "2024-05-01T12:00:00Z".

Lemma omap_replicate {A B} (f : A -> option B) (x : A) (y : B) n :
  f x = Some y -> omap f (replicate n x) = replicate n y.
Proof. intros H. induction n as [|n IH]; csimpl; [done|]. by rewrite H, IH. Qed.

Lemma opened_socket :
  sockets Ref.opened !! 0
    = Some (mkWebSocket "ws://localhost:5000/api/ws" None OPEN []).
Proof. reflexivity. Qed.

(** The reader on the texts used below. *)
Example parse_frame :
  parse (frame "log" "a" ts)
    = Some (JObject [("type", JString "log"); ("data", JString "a");
                     ("timestamp", JString ts)]).
Proof. reflexivity. Qed.

Example parse_nested :
  parse " [1, -2.5e+3, true, null, {}, [ ] ] "
    = Some (JArray [JNumber "1"; JNumber "-2.5e+3"; JBool true; JNull;
                    JObject []; JArray []]).
Proof. reflexivity. Qed.

Example parse_refuses :
  parse <$> ["{"; ""; "nul"; "01"; "[1,]"; "1 2"; "{a:1}"]
    = [None; None; None; None; None; None; None].
Proof. reflexivity. Qed.

Example stringify_parse :
  stringify <$> parse (frame "log" "a" ts) = Some (frame "log" "a" ts).
Proof. reflexivity. Qed.

(** C1, a history against it: the consumer connects, the socket opens, the
    consumer disconnects.  The close event of the socket that [disconnect]
    closed then runs [onclose], which finds the timer ref null and arms a
    timeout; the timeout expires and calls [connect], a second socket is made
    and becomes current, and once it opens the provider is connected again,
    without any call of [connect] after the [disconnect]. *)
Lemma late_close_after_disconnect_reconnects :
  let w0 := Ref.step Ref.opened Call_disconnect in
  let w1 := Ref.step w0 (Ev_close 0 1000 "") in
  let w2 := Ref.step w1 (Ev_timeout 1) in
  let w3 := Ref.step w2 (Ev_open 1) in
  (wsRef w0 = None ∧ isConnected w0 = false
   ∧ reconnectTimeoutRef w0 = None ∧ timers w0 = ∅
   ∧ readyState <$> sockets w0 = [CLOSING])
  ∧ (enabled w0 (Ev_close 0 1000 "") = true
     ∧ reconnectTimeoutRef w1 = Some 1 ∧ timers w1 !! 1 = Some None)
  ∧ (enabled w1 (Ev_timeout 1) = true
     ∧ wsRef w2 = Some 1
     ∧ sockets w2 !! 1
         = Some (mkWebSocket "ws://localhost:5000/api/ws" None CONNECTING []))
  ∧ (enabled w2 (Ev_open 1) = true
     ∧ isConnected w3 = true ∧ current_readyState w3 = Some OPEN).
Proof. vm_compute. repeat split. Qed.

(** C1, the amended statement at a reachable state with a timeout pending:
    the socket closed before it opened. *)
Lemma disconnect_cancels_pending_timer_witness :
  let w := Ref.run Ref.mounted [Call_connect None; Ev_close 0 1006 ""] in
  let evs : list (Event JSON) :=
    [Ev_timeout 1; Call_sendMessage (mkWebSocketMessage "chat" JNull ts)] in
  reachable parse Ref.stringify None Ref.accepts w
  ∧ timers w !! 1 = Some None
  ∧ timers (disconnect w) = ∅
  ∧ reconnectTimeoutRef (disconnect w) = None
  ∧ Forall (λ e, is_close e = false) evs
  ∧ timers (Ref.run (disconnect w) evs) = ∅.
Proof.
  intros w evs.
  assert (reachable parse Ref.stringify None Ref.accepts w) as Hw.
  { apply reachable_run. constructor. }
  assert (Forall (λ e, is_close e = false) evs) as Hevs.
  { repeat constructor. }
  split; [exact Hw|]. split; [reflexivity|].
  pose proof (disconnect_cancels_pending_timer parse Ref.stringify None Ref.accepts w Hw) as H.
  simpl in H. destruct H as (H1 & H2 & _ & _ & _ & H3).
  split; [exact H1|]. split; [exact H2|]. split; [exact Hevs|].
  exact (proj1 (H3 evs Hevs)).
Defined.

(** C2, against it: no capacity bounds the buffer.  With the capacity 2 of
    the specification's scenario, three frames leave three entries, the
    oldest included; and whatever the capacity, one more frame than that
    makes the buffer longer. *)
Lemma buffer_exceeds_every_capacity :
  messages (Ref.run Ref.opened
             (Ev_message 0 <$> [quoted "a"; quoted "b"; quoted "c"]))
    = [JString "a"; JString "b"; JString "c"]
  ∧ ¬ ∃ capacity : nat, ∀ frames : list string,
        (length (messages (Ref.run Ref.opened (Ev_message 0 <$> frames)))
          ≤ capacity)%nat.
Proof.
  split; [reflexivity|].
  intros [capacity H]. specialize (H (replicate (S capacity) "null")).
  destruct (run_frames parse Ref.stringify None Ref.accepts 0 (replicate (S capacity) "null")
              Ref.opened _ opened_socket eq_refl) as [Hm _].
  unfold Ref.run in H. rewrite Hm in H.
  rewrite (omap_replicate parse "null" JNull) in H by reflexivity.
  rewrite length_app, length_replicate in H. simpl in H. lia.
Qed.

(** C2, the amended statement on three frames, the second malformed. *)
Lemma buffer_keeps_every_frame_witness :
  sockets Ref.opened !! 0
    = Some (mkWebSocket "ws://localhost:5000/api/ws" None OPEN [])
  ∧ readyState (mkWebSocket "ws://localhost:5000/api/ws" None OPEN []) = OPEN
  ∧ messages (Ref.run Ref.opened (Ev_message 0 <$> [quoted "a"; "{"; quoted "c"]))
      = messages Ref.opened ++ omap parse [quoted "a"; "{"; quoted "c"].
Proof.
  split; [reflexivity|]. split; [reflexivity|].
  exact (proj2 (buffer_keeps_every_frame parse Ref.stringify None Ref.accepts Ref.opened 0 _
                  [quoted "a"; "{"; quoted "c"]) opened_socket eq_refl).
Defined.

(** C3, against it: a message sent while the socket is still connecting is
    not queued; when the socket opens nothing is transmitted.  And on a
    provider that never connected [sendMessage] returns normally. *)
Lemma message_sent_while_connecting_is_lost :
  let m := mkWebSocketMessage "chat" (JString "hi") ts in
  let w1 := Ref.run Ref.mounted [Call_connect None; Call_sendMessage m] in
  let w2 := Ref.step w1 (Ev_open 0) in
  current_readyState w1 = Some CONNECTING
  ∧ enabled w1 (Ev_open 0) = true
  ∧ current_readyState w2 = Some OPEN
  ∧ sent <$> sockets w2 = [[]]
  ∧ console w2 = [warn_not_connected; log_connected]
  ∧ Ref.sendMessage m Ref.mounted
      = (Returned, console_write warn_not_connected Ref.mounted).
Proof. vm_compute. repeat split. Qed.

(** C3, the amended statement: a send on an open socket, a send on a
    provider that never connected, and an open event. *)
Lemma send_transmits_or_discards_witness :
  let m := mkWebSocketMessage "chat" (JString "hi") ts in
  (current_readyState Ref.opened = Some OPEN
   ∧ Ref.stringify m = Some (frame "chat" "hi" ts)
   ∧ ∃ i ws, wsRef Ref.opened = Some i ∧ sockets Ref.opened !! i = Some ws
       ∧ sockets (Ref.sendMessage m Ref.opened).2 !! i
           = Some (ws_send (frame "chat" "hi" ts) ws))
  ∧ (current_readyState Ref.mounted ≠ Some OPEN
     ∧ Ref.sendMessage m Ref.mounted
         = (Returned, console_write warn_not_connected Ref.mounted))
  ∧ (is_send (Ev_open 0 : Event JSON) = false
     ∧ sent <$> sockets (Ref.step Ref.opened (Ev_open 0)) !! 0 = Some []).
Proof.
  intros m.
  split; [|split].
  - split; [reflexivity|]. split; [reflexivity|].
    destruct (proj1 (send_transmits_or_discards parse Ref.stringify None Ref.accepts m Ref.opened)
                eq_refl (frame "chat" "hi" ts) eq_refl)
      as (i & ws & H1 & H2 & _ & H3 & _).
    by exists i, ws.
  - split; [discriminate|].
    apply (proj1 (proj2 (send_transmits_or_discards parse Ref.stringify None Ref.accepts
                           m Ref.mounted))).
    discriminate.
  - split; [reflexivity|].
    exact (proj2 (proj2 (send_transmits_or_discards parse Ref.stringify None Ref.accepts
                           m Ref.opened)) (Ev_open 0) 0 _ eq_refl opened_socket).
Defined.

(** C4, against it: a second [connect] while the first socket is still
    connecting is not a no-op; it makes a second socket and replaces the
    current one, and the first is left connecting. *)
Lemma connect_while_connecting_opens_second_socket :
  let w1 := (Ref.connect None Ref.mounted).2 in
  let w2 := (Ref.connect None w1).2 in
  current_readyState w1 = Some CONNECTING
  ∧ w2 ≠ w1
  ∧ wsRef w1 = Some 0 ∧ wsRef w2 = Some 1
  ∧ readyState <$> sockets w1 = [CONNECTING]
  ∧ readyState <$> sockets w2 = [CONNECTING; CONNECTING].
Proof. vm_compute. repeat split. discriminate. Qed.

(** C4, the amended statement on an open provider, on a fresh one, and on a
    fresh one with an agent identifier that puts a fragment into the URL. *)
Lemma connect_noop_exactly_when_open_witness :
  (current_readyState Ref.opened = Some OPEN
   ∧ Ref.connect (Some "agent-42") Ref.opened = (Returned, Ref.opened))
  ∧ (current_readyState Ref.mounted ≠ Some OPEN
     ∧ Ref.accepts (wsUrl None (Some "agent-42")) = true
     ∧ sockets (Ref.connect (Some "agent-42") Ref.mounted).2
         = [mkWebSocket "ws://localhost:5000/api/agents/agent-42/ws"
              (Some "agent-42") CONNECTING []])
  ∧ (Ref.accepts (wsUrl None (Some "a#b")) = false
     ∧ Ref.connect (Some "a#b") Ref.mounted = (Threw, Ref.mounted)).
Proof.
  assert (current_readyState Ref.mounted ≠ Some OPEN) as Hm by discriminate.
  split; [|split].
  - split; [reflexivity|].
    exact (proj1 (connect_noop_exactly_when_open None Ref.accepts
                    (Some "agent-42") Ref.opened) eq_refl).
  - split; [exact Hm|]. split; [reflexivity|].
    exact (proj1 (proj2 (proj1 (proj2
             (connect_noop_exactly_when_open None Ref.accepts
                (Some "agent-42") Ref.mounted)) Hm eq_refl))).
  - split; [reflexivity|].
    exact (proj2 (proj2 (connect_noop_exactly_when_open None Ref.accepts
                           (Some "a#b") Ref.mounted)) Hm eq_refl).
Defined.

(** C5, against it: in a browser without token and user, [connect] does not
    fail; it opens the transport. *)
Lemma connect_without_credential_opens_transport :
  Auth.access_token Auth.signed_out = None
  ∧ Auth.isAuthenticated Auth.signed_out = false
  ∧ (Ref.connect None (init Auth.signed_out)).1 = Returned
  ∧ sockets (Ref.connect None (init Auth.signed_out)).2
      = [mkWebSocket "ws://localhost:5000/api/ws" None CONNECTING []]
  ∧ wsRef (Ref.connect None (init Auth.signed_out)).2 = Some 0.
Proof. vm_compute. repeat split. Qed.

(** C5, the amended statement in a signed-out browser. *)
Lemma connect_ignores_session_witness :
  current_readyState Ref.mounted ≠ Some OPEN
  ∧ Ref.accepts (wsUrl None None) = true
  ∧ (Ref.connect None (set_auth Auth.signed_out Ref.mounted)).1 = Returned
  ∧ length (sockets (Ref.connect None (set_auth Auth.signed_out Ref.mounted)).2)
      = S (length (sockets Ref.mounted)).
Proof.
  assert (current_readyState Ref.mounted ≠ Some OPEN) as Hm by discriminate.
  split; [exact Hm|]. split; [reflexivity|].
  exact (proj2 (connect_ignores_session None Ref.accepts Auth.signed_out None
                  Ref.mounted) Hm eq_refl).
Defined.

(** C6, against it: two scopes connected one after the other give two live
    sockets that feed the same buffer, and the close of the first one's
    socket clears the connected flag while the second one's socket, the
    current one, stays open.  Two calls for the same scope give two sockets
    for that scope. *)
Lemma scopes_share_buffer_and_flag :
  let w := Ref.run Ref.mounted
             [Call_connect (Some "agent-1"); Call_connect (Some "agent-2");
              Ev_open 0; Ev_open 1;
              Ev_message 0 (frame "log" "a" ts);
              Ev_message 1 (frame "log" "b" ts)] in
  let w' := Ref.step w (Ev_close 0 1006 "") in
  closure_agentId <$> sockets w = [Some "agent-1"; Some "agent-2"]
  ∧ readyState <$> sockets w = [OPEN; OPEN]
  ∧ (JSON.get "data" <$> messages w)
      = [Some (JString "a"); Some (JString "b")]
  ∧ isConnected w = true
  ∧ enabled w (Ev_close 0 1006 "") = true
  ∧ isConnected w' = false
  ∧ current_readyState w' = Some OPEN
  ∧ closure_agentId <$> sockets w' !! 1 = Some (Some "agent-2")
  ∧ (closure_agentId <$> sockets (Ref.run Ref.mounted
        [Call_connect (Some "agent-1"); Call_connect (Some "agent-1")]))
      = [Some "agent-1"; Some "agent-1"].
Proof. vm_compute. repeat split. Qed.

(** C6, the amended statement on the socket of the first of two scopes, which
    is not the current one. *)
Lemma one_buffer_and_flag_for_all_scopes_witness :
  let w := Ref.run Ref.mounted
             [Call_connect (Some "agent-1"); Call_connect (Some "agent-2");
              Ev_open 0; Ev_open 1] in
  let ws := mkWebSocket "ws://localhost:5000/api/agents/agent-1/ws"
              (Some "agent-1") OPEN [] in
  sockets w !! 0 = Some ws
  ∧ wsRef w = Some 1
  ∧ (readyState ws = OPEN ∧ parse "7" = Some (JNumber "7")
     ∧ messages (Ref.step w (Ev_message 0 "7")) = messages w ++ [JNumber "7"])
  ∧ (readyState ws ≠ CLOSED
     ∧ isConnected (Ref.step w (Ev_close 0 1006 "")) = false
     ∧ isConnected (Ref.step w (Ev_error 0)) = false).
Proof.
  intros w ws.
  assert (sockets w !! 0 = Some ws) as Hs by reflexivity.
  destruct (one_buffer_and_flag_for_all_scopes parse Ref.stringify None Ref.accepts w 0 ws Hs)
    as (H1 & H2 & H3).
  split; [exact Hs|]. split; [reflexivity|]. split.
  - split; [reflexivity|]. split; [reflexivity|].
    exact (H1 eq_refl "7" (JNumber "7") eq_refl).
  - assert (readyState ws ≠ CLOSED) as Hc by discriminate.
    split; [exact Hc|]. split; [exact (H2 Hc 1006 "")|exact (H3 Hc)].
Defined.

(** C7, against it: the entries the consumers see carry no sequence number.
    The two frames of the specification's scenario arrive as they were sent,
    without a [sequence] member; and where the server sends such a member it
    is passed through, here 5 before 3. *)
Lemma entries_carry_no_client_sequence :
  let w := Ref.run Ref.opened
             [Ev_message 0 (frame "log" "a" ts);
              Ev_message 0 (frame "log" "b" ts)] in
  let w' := Ref.run Ref.opened
             [Ev_message 0 ("{" +:+ quoted "sequence" +:+ ":5}");
              Ev_message 0 ("{" +:+ quoted "sequence" +:+ ":3}")] in
  (JSON.get "type" <$> messages w) = [Some (JString "log"); Some (JString "log")]
  ∧ (JSON.get "data" <$> messages w) = [Some (JString "a"); Some (JString "b")]
  ∧ (JSON.get "sequence" <$> messages w) = [None; None]
  ∧ (JSON.get "sequence" <$> messages w')
      = [Some (JNumber "5"); Some (JNumber "3")].
Proof. vm_compute. repeat split. Qed.

(** C7, the amended statement on three frames, one malformed, and on a close
    event after them. *)
Lemma observed_entries_are_the_decoded_frames_witness :
  let frames := [frame "log" "a" ts; "{"; frame "log" "b" ts] in
  let w' := Ref.run Ref.opened (Ev_message 0 <$> frames) in
  (sockets Ref.opened !! 0
     = Some (mkWebSocket "ws://localhost:5000/api/ws" None OPEN [])
   ∧ length (messages w') + decode_failures parse frames
       = length (messages Ref.opened) + length frames
   ∧ drop (length (messages Ref.opened)) (messages w') = omap parse frames)
  ∧ (is_message (Ev_close 0 1006 "" : Event JSON) = false
     ∧ messages (Ref.step w' (Ev_close 0 1006 "")) = messages w').
Proof.
  intros frames w'. split.
  - split; [reflexivity|].
    destruct (proj1 (observed_entries_are_the_decoded_frames parse Ref.stringify
                       None Ref.accepts Ref.opened 0 _ frames)
                opened_socket eq_refl) as (H1 & _ & H2 & _).
    split; [exact H1|exact H2].
  - split; [reflexivity|].
    exact (proj2 (observed_entries_are_the_decoded_frames parse Ref.stringify
                    None Ref.accepts w' 0 (mkWebSocket "" None OPEN []) [])
                 (Ev_close 0 1006 "") eq_refl).
Defined.

(** C8, against it: a malformed frame on an open socket changes nothing a
    consumer of the context can see; the failure goes to the console only. *)
Lemma malformed_frame_reaches_no_consumer :
  let w' := Ref.step Ref.opened (Ev_message 0 "{") in
  parse "{" = None
  ∧ enabled Ref.opened (Ev_message 0 "{") = true
  ∧ context_value w' = context_value Ref.opened
  ∧ console w' = console Ref.opened ++ [error_parse]
  ∧ w' = console_write error_parse Ref.opened.
Proof. vm_compute. repeat split. Qed.

(** C8, the amended statement on an unfinished object. *)
Lemma malformed_frame_is_logged_and_dropped_witness :
  sockets Ref.opened !! 0
    = Some (mkWebSocket "ws://localhost:5000/api/ws" None OPEN [])
  ∧ parse "{" = None
  ∧ Ref.step Ref.opened (Ev_message 0 "{") = console_write error_parse Ref.opened.
Proof.
  split; [reflexivity|]. split; [reflexivity|].
  exact (proj1 (malformed_frame_is_logged_and_dropped parse Ref.stringify None Ref.accepts
                  Ref.opened 0 _ "{" opened_socket eq_refl eq_refl)).
Defined.

(** C9 on an agent scope with a configured base address, on the two
    arguments of the global scope, and on the socket [connect] makes. *)
Lemma endpoint_of_scope_witness :
  wsUrl (Some "wss://example.org") (Some "agent-42")
    = "wss://example.org/api/agents/agent-42/ws"
  ∧ ((@None string = None ∨ @None string = Some "")
     ∧ base_address None = "ws://localhost:5000")
  ∧ (Some "wss://example.org" = Some "wss://example.org"
     ∧ "wss://example.org" ≠ ""
     ∧ base_address (Some "wss://example.org") = "wss://example.org")
  ∧ (scope_of (Some "") = scope_of None
     ∧ wsUrl None (Some "") = wsUrl None None)
  ∧ (current_readyState Ref.mounted ≠ Some OPEN
     ∧ Ref.accepts (wsUrl None (Some "agent-42")) = true
     ∧ sockets (Ref.connect (Some "agent-42") Ref.mounted).2
                 !! length (sockets Ref.mounted)
         = Some (mkWebSocket "ws://localhost:5000/api/agents/agent-42/ws"
                   (Some "agent-42") CONNECTING [])).
Proof.
  assert (current_readyState Ref.mounted ≠ Some OPEN) as Hm by discriminate.
  assert ("wss://example.org" ≠ "") as Hu by discriminate.
  split; [|split; [|split; [|split]]].
  - exact (proj1 (endpoint_of_scope (Some "wss://example.org") Ref.accepts
                    (Some "agent-42") None Ref.mounted)).
  - split; [by left|].
    apply (proj1 (proj2 (endpoint_of_scope None Ref.accepts None None
                           Ref.mounted))).
    by left.
  - split; [reflexivity|]. split; [exact Hu|].
    exact (proj1 (proj2 (proj2 (endpoint_of_scope (Some "wss://example.org")
                                  Ref.accepts None None Ref.mounted)))
             "wss://example.org" eq_refl Hu).
  - split; [reflexivity|].
    exact (proj1 (proj1 (proj2 (proj2 (proj2
             (endpoint_of_scope None Ref.accepts (Some "") None Ref.mounted)))))
             eq_refl).
  - split; [exact Hm|]. split; [reflexivity|].
    exact (proj2 (proj2 (proj2 (proj2
             (endpoint_of_scope None Ref.accepts (Some "agent-42") None
                Ref.mounted)))) Hm eq_refl).
Defined.

(** C10, against it: on an open socket, a message whose [data] is a bigint
    makes [JSON.stringify], and with it [sendMessage], throw. *)
Lemma sendMessage_throws_on_bigint :
  let m := mkWebSocketMessage "chat" (Big.BigInt 10) ts in
  current_readyState Big.opened = Some OPEN
  ∧ Big.stringify m = None
  ∧ sendMessage Big.stringify m Big.opened = (Threw, Big.opened).
Proof. vm_compute. repeat split. Qed.

(** C10, the amended statement: a send after the socket has closed, with
    entries in the buffer and a reconnect pending; and the throw on the open
    socket. *)
Lemma sendMessage_throws_only_from_stringify_witness :
  let m := mkWebSocketMessage "chat" (JString "hi") ts in
  let w := Ref.run Ref.opened
             [Ev_message 0 (frame "log" "a" ts); Ev_close 0 1006 ""] in
  let b := mkWebSocketMessage "chat" (Big.BigInt 10) ts in
  (current_readyState w = Some CLOSED
   ∧ current_readyState w ≠ Some OPEN
   ∧ (Ref.sendMessage m w).1 = Returned
   ∧ messages (Ref.sendMessage m w).2 = messages w
   ∧ length (messages w) = 1
   ∧ reconnectTimeoutRef (Ref.sendMessage m w).2 = Some 1
   ∧ sockets (Ref.sendMessage m w).2 = sockets w)
  ∧ ((sendMessage Big.stringify b Big.opened).1 = Threw
     ∧ (sendMessage Big.stringify b Big.opened).2 = Big.opened).
Proof.
  intros m w b.
  assert (current_readyState w ≠ Some OPEN) as H by discriminate.
  split.
  - split; [reflexivity|]. split; [exact H|].
    destruct (proj1 (sendMessage_throws_only_from_stringify Ref.stringify m w) H)
      as (H1 & H2 & _ & _ & H3 & _ & _ & H4 & _).
    split; [exact H1|]. split; [exact H2|]. split; [reflexivity|].
    split; [exact (eq_trans H3 eq_refl)|exact H4].
  - assert ((sendMessage Big.stringify b Big.opened).1 = Threw) as Ht
      by reflexivity.
    split; [exact Ht|].
    exact (proj2 (proj2 (sendMessage_throws_only_from_stringify Big.stringify b
                           Big.opened)) Ht).
Defined.

(** *** Further histories *)

Lemma retrying_reachable : reachable parse Ref.stringify None Ref.accepts Ref.retrying.
Proof. apply reachable_run. constructor. Qed.

Lemma opened_reachable : reachable parse Ref.stringify None Ref.accepts Ref.opened.
Proof. apply reachable_run. constructor. Qed.

(** X1 while a retry is pending. *)
Lemma at_most_one_timeout_pending_witness :
  reachable parse Ref.stringify None Ref.accepts Ref.retrying
  ∧ size (timers Ref.retrying) = 1
  ∧ (size (timers Ref.retrying) ≤ 1)%nat.
Proof.
  split; [exact retrying_reachable|]. split; [reflexivity|].
  exact (proj1 (at_most_one_timeout_pending parse Ref.stringify None Ref.accepts Ref.retrying
                  retrying_reachable)).
Defined.

(** X2: the consumer connects again while the retry is pending, and the new
    socket opens. *)
Lemma open_cancels_pending_retry_witness :
  let w := Ref.step Ref.retrying (Call_connect None) in
  reachable parse Ref.stringify None Ref.accepts w
  ∧ enabled w (Ev_open 1) = true
  ∧ timers w !! 1 = Some None
  ∧ timers (Ref.step w (Ev_open 1)) = ∅
  ∧ reconnectTimeoutRef (Ref.step w (Ev_open 1)) = None.
Proof.
  intros w.
  assert (reachable parse Ref.stringify None Ref.accepts w) as Hw.
  { constructor. exact retrying_reachable. }
  split; [exact Hw|]. split; [reflexivity|]. split; [reflexivity|].
  destruct (open_cancels_pending_retry parse Ref.stringify None Ref.accepts w 1 Hw eq_refl)
    as (H1 & H2 & _).
  by split.
Defined.

(** X3: the retry expired and its socket fails too; nothing is armed. *)
Lemma expired_retry_is_not_rearmed_witness :
  let w := Ref.step Ref.retrying (Ev_timeout 1) in
  let evs : list (Event JSON) :=
    [Ev_error 1; Ev_close 1 1006 ""; Call_connect None; Ev_close 2 1006 ""] in
  reconnectTimeoutRef w = Some 1
  ∧ timers w = ∅
  ∧ Forall (λ e, clears_timer_ref e = false) evs
  ∧ timers (Ref.run w evs) = ∅
  ∧ readyState <$> sockets (Ref.run w evs) = [CLOSED; CLOSED; CLOSED].
Proof.
  intros w evs.
  assert (Forall (λ e, clears_timer_ref e = false) evs) as Hevs.
  { repeat constructor. }
  split; [reflexivity|]. split; [reflexivity|]. split; [exact Hevs|].
  split; [|reflexivity].
  exact (proj1 (expired_retry_is_not_rearmed parse Ref.stringify None Ref.accepts w 1 evs
                  eq_refl eq_refl Hevs)).
Defined.

(** X4 on the open global socket. *)
Lemma retry_reopens_same_endpoint_witness :
  let ws := mkWebSocket "ws://localhost:5000/api/ws" None OPEN [] in
  let w' := Ref.run Ref.opened [Ev_close 0 1006 ""; Ev_timeout 1] in
  reachable parse Ref.stringify None Ref.accepts Ref.opened
  ∧ wsRef Ref.opened = Some 0
  ∧ sockets Ref.opened !! 0 = Some ws
  ∧ readyState ws ≠ CLOSED
  ∧ reconnectTimeoutRef Ref.opened = None
  ∧ sockets w' = [mkWebSocket "ws://localhost:5000/api/ws" None CLOSED [];
                  mkWebSocket "ws://localhost:5000/api/ws" None CONNECTING []]
  ∧ wsRef w' = Some 1.
Proof.
  intros ws w'.
  assert (readyState ws ≠ CLOSED) as Hc by discriminate.
  split; [exact opened_reachable|]. split; [reflexivity|].
  split; [reflexivity|]. split; [exact Hc|]. split; [reflexivity|].
  destruct (retry_reopens_same_endpoint parse Ref.stringify None Ref.accepts Ref.opened 0 ws
              1006 "" opened_reachable eq_refl eq_refl Hc eq_refl)
    as (H1 & H2 & _).
  split; [exact H1|exact H2].
Defined.

(** X5 on the open global socket, for an agent and for an identifier that
    puts a fragment into the URL. *)
Lemma disconnect_then_connect_starts_over_witness :
  let w := (Ref.connect (Some "agent-42") (disconnect Ref.opened)).2 in
  (Ref.accepts (wsUrl None (Some "agent-42")) = true
   ∧ wsRef w = Some 1
   ∧ current_readyState w = Some CONNECTING
   ∧ readyState <$> sockets w = [CLOSING; CONNECTING])
  ∧ (Ref.accepts (wsUrl None (Some "a#b")) = false
     ∧ Ref.connect (Some "a#b") (disconnect Ref.opened)
         = (Threw, disconnect Ref.opened)).
Proof.
  intros w. split.
  - split; [reflexivity|].
    destruct (proj1 (disconnect_then_connect_starts_over None Ref.accepts
                       (Some "agent-42") Ref.opened) eq_refl)
      as (_ & H1 & _ & H2 & _).
    split; [exact H1|]. split; [exact H2|reflexivity].
  - split; [reflexivity|].
    exact (proj2 (disconnect_then_connect_starts_over None Ref.accepts
                    (Some "a#b") Ref.opened) eq_refl).
Defined.

Local Abbreviation ada := (Auth.mkUser 1 "ada" None true false ts ts).

(** X7: after [logout], a registration and a failed login. *)
Lemma logout_leaves_no_credential_witness :
  let evs := [Session.Register (Session.Fulfilled ada);
              Session.Login (Session.Rejected None)] in
  let s := Session.logout (Session.loaded (Some "abc")) in
  Forall (λ e, Session.grants_token e = false) evs
  ∧ Session.request_authorization (Session.run s evs) = None.
Proof.
  intros evs s.
  assert (Forall (λ e, Session.grants_token e = false) evs) as Hevs.
  { repeat constructor. }
  split; [exact Hevs|].
  exact (proj2 (proj2 (proj2 (logout_leaves_no_credential
                                (Session.loaded (Some "abc")) evs) Hevs))).
Defined.

(** X8 on a page that held another token. *)
Lemma login_success_authorizes_requests_witness :
  let r := Session.Members (Session.Str "abc") (Some ada) in
  let s := Session.loaded (Some "old") in
  "abc" ≠ ""
  ∧ Session.request_authorization (Session.login (Session.Fulfilled r) s).2
      = Some "Bearer abc".
Proof.
  intros r s.
  assert ("abc" ≠ "") as Hr by discriminate.
  split; [exact Hr|].
  exact (proj2 (proj2 (proj2 (proj2
           (login_success_authorizes_requests "abc" ada s Hr))))).
Defined.

(** X9 with a server error. *)
Lemma failed_login_or_register_keeps_session_witness :
  let s := Session.loaded (Some "abc") in
  Some 500 ≠ Some 401
  ∧ Session.login (Session.Rejected (Some 500)) s
      = (Threw, Session.console_write Session.error_login s).
Proof.
  intros s.
  assert (Some 500 ≠ Some 401) as H by discriminate.
  split; [exact H|].
  exact (proj1 (failed_login_or_register_keeps_session (Some 500) s H)).
Defined.

(** X11 on a page loaded without token, after its mount effect. *)
Lemma register_success_stores_no_token_witness :
  let s := Session.mount (Session.Rejected None) (Session.loaded None) in
  let s' := (Session.register (Session.Fulfilled ada) s).2 in
  Auth.isLoading (Session.auth s) = false
  ∧ Session.getItem s = None
  ∧ Session.authorization s = None
  ∧ App.App (Session.auth s') = App.Pages
  ∧ Session.request_authorization s' = None.
Proof.
  intros s s'.
  split; [reflexivity|]. split; [reflexivity|]. split; [reflexivity|].
  destruct (register_success_stores_no_token ada s eq_refl eq_refl eq_refl)
    as (_ & H1 & _ & H2).
  split; [exact H1|exact H2].
Defined.

(** X13 through a logout, a login and a failed registration. *)
Lemma default_header_follows_token_witness :
  let evs := [Session.Logout;
              Session.Login (Session.Fulfilled
                (Session.Members (Session.Str "abc") (Some ada)));
              Session.Register (Session.Rejected (Some 500))] in
  let s := Session.run (Session.loaded (Some "old"))
             (Session.Mount (Session.Fulfilled ada) :: evs) in
  Forall (λ e, Session.status_of e ≠ Some 401 ∧ Session.token_is_string e = true)
         (Session.Mount (Session.Fulfilled ada) :: evs)
  ∧ Session.authorization s = Some "Bearer abc"
  ∧ Session.request_authorization s = Session.authorization s.
Proof.
  intros evs s.
  assert (Forall (λ e, Session.status_of e ≠ Some 401
                       ∧ Session.token_is_string e = true)
            (Session.Mount (Session.Fulfilled ada) :: evs)) as Hevs.
  { repeat constructor; discriminate. }
  split; [exact Hevs|]. split; [reflexivity|].
  exact (proj2 (default_header_follows_token (Some "old") (Session.Fulfilled ada)
                  evs Hevs)).
Defined.

(** X15 below the agents page. *)
Lemma at_most_one_item_active_witness :
  let agents := Sidebar.mkItem "Agents" "/agents" in
  agents ∈ Sidebar.navigation
  ∧ Sidebar.isActive "/agents/create" (Sidebar.href agents) = true
  ∧ agents = agents.
Proof.
  intros agents.
  assert (agents ∈ Sidebar.navigation) as Hin.
  { apply list_elem_of_lookup_2 with 1. reflexivity. }
  split; [exact Hin|]. split; [reflexivity|].
  exact (proj1 (at_most_one_item_active "/agents/create" agents agents)
           Hin Hin eq_refl eq_refl).
Defined.

End Replays.
